(** * Codebase RAG: entity extraction, store and search

    A shallow embedding of [tools/codebase_rag.py]: the Go source scanner
    ([GoCodeParser]), the two-table SQLite store ([CodebaseRAG.index_entities]),
    the keyword search ([CodebaseRAG.search]) and the query-prefix parsing of
    the interactive loop in [main].

    Modelling conventions.
    - A Python [str] is a [string] of its characters, each the code point
      it has, up to 255 (ASCII and Latin-1); text with higher code points is
      outside the model. A character above 127 is written by its decimal
      code, [String "201" s] for a capital E with acute accent.
      [str.lower] is Python's on all these code points. The character
      classes [\s] and [\w] are Python's on the ASCII range and hold no
      character above 127.
    - Indices and line numbers are [nat]; the [limit] of a search is a Python
      [int] and is a [Z], because a slice bound may be negative.
    - A [pathlib.Path] is its POSIX string.
    - A table is the list of its rows in rowid order, and [INSERT OR
      REPLACE] deletes the row holding the key and appends the new one. A
      scan of the rows themselves visits them in rowid order. A scan that
      reads the primary key alone is answered by SQLite from the index of
      the primary key, and visits the keys in ascending order, compared
      character by character. *)

From Stdlib Require Import String Ascii List ZArith Lia Bool Arith.
From Stdlib Require Import DecimalString Decimal Sorted Permutation.
Import ListNotations.

Local Open Scope string_scope.
Local Open Scope nat_scope.
Local Open Scope list_scope.

(** ** Python string primitives *)

Module PyStr.

(** [str.isspace] on one ASCII character: TAB, LF, VT, FF, CR, the four
    separators FS GS RS US, and the space. *)
Definition is_space (c : ascii) : bool :=
  let n := nat_of_ascii c in
  ((9 <=? n) && (n <=? 13) || (28 <=? n) && (n <=? 32))%nat.

Definition is_upper (c : ascii) : bool :=
  let n := nat_of_ascii c in ((65 <=? n) && (n <=? 90))%nat.

Definition is_lower (c : ascii) : bool :=
  let n := nat_of_ascii c in ((97 <=? n) && (n <=? 122))%nat.

Definition is_digit (c : ascii) : bool :=
  let n := nat_of_ascii c in ((48 <=? n) && (n <=? 57))%nat.

(** The class [\w]: letters, digits and the underscore. *)
Definition is_word (c : ascii) : bool :=
  is_upper c || is_lower c || is_digit c || Ascii.eqb c "_".

(** The capital letters of Latin-1: code points 192 to 222 but for the
    multiplication sign 215. *)
Definition is_upper_latin1 (c : ascii) : bool :=
  let n := nat_of_ascii c in
  ((192 <=? n) && (n <=? 222) && negb (n =? 215))%nat.

(** The small letters of Latin-1 that have a capital among the code points
    up to 255: 224 to 254 but for the division sign 247. *)
Definition is_lower_latin1 (c : ascii) : bool :=
  let n := nat_of_ascii c in
  ((224 <=? n) && (n <=? 254) && negb (n =? 247))%nat.

(** [c.lower()]: a capital letter, ASCII or Latin-1, becomes the small
    letter 32 code points above; every other character is kept. *)
Definition lower_char (c : ascii) : ascii :=
  if is_upper c || is_upper_latin1 c
  then ascii_of_nat (nat_of_ascii c + 32) else c.

(** The capital of a small letter that has one as a single character up to
    255; every other character is kept. The sharp s (223), the micro sign
    (181) and the y with diaeresis (255), whose upper-case forms in Python
    are two letters or lie above 255, are kept too: see [upper]. *)
Definition upper_char (c : ascii) : ascii :=
  if is_lower c || is_lower_latin1 c
  then ascii_of_nat (nat_of_ascii c - 32) else c.

(** [s.lower()] *)
Fixpoint lower (s : string) : string :=
  match s with
  | EmptyString => EmptyString
  | String c s' => String (lower_char c) (lower s')
  end.

(** [s.capitalize()] *)
Definition capitalize (s : string) : string :=
  match s with
  | EmptyString => EmptyString
  | String c s' => String (upper_char c) (lower s')
  end.

(** [c.upper()] as a string: the sharp s (223) becomes the two letters
    [SS]; the micro sign (181) and the y with diaeresis (255) have capitals
    above 255, outside the model: [None]. *)
Definition upper_form (c : ascii) : option string :=
  let n := nat_of_ascii c in
  if (n =? 223)%nat then Some "SS"
  else if ((n =? 181) || (n =? 255))%nat then None
  else Some (String (upper_char c) EmptyString).

(** [s.upper()], when it stays within the code points of the model. *)
Fixpoint upper (s : string) : option string :=
  match s with
  | EmptyString => Some EmptyString
  | String c s' =>
      match upper_form c, upper s' with
      | Some u, Some r => Some (u ++ r)%string
      | _, _ => None
      end
  end.

(** [s[:n]] for [n >= 0] *)
Fixpoint take (n : nat) (s : string) : string :=
  match n, s with
  | S n', String c s' => String c (take n' s')
  | _, _ => EmptyString
  end.

(** [s[n:]] for [n >= 0] *)
Fixpoint drop (n : nat) (s : string) : string :=
  match n, s with
  | S n', String _ s' => drop n' s'
  | _, _ => s
  end.

(** [s[a:b]] for [0 <= a] and [0 <= b] *)
Definition slice (a b : nat) (s : string) : string :=
  take (b - a) (drop a s).

(** [s.startswith(p)] *)
Definition startswith (p s : string) : bool := String.prefix p s.

(** [needle in hay] *)
Fixpoint contains (needle hay : string) : bool :=
  String.prefix needle hay ||
  match hay with
  | EmptyString => false
  | String _ hay' => contains needle hay'
  end.

(** [s.count(c)] for a one-character [c] *)
Fixpoint count_char (c : ascii) (s : string) : nat :=
  match s with
  | EmptyString => 0
  | String x s' => (if Ascii.eqb x c then 1 else 0) + count_char c s'
  end.

(** [s.find(c, from)] for a one-character [c]: [None] stands for [-1]. *)
Fixpoint find_char_at (c : ascii) (s : string) (i : nat) : option nat :=
  match s with
  | EmptyString => None
  | String x s' => if Ascii.eqb x c then Some i else find_char_at c s' (S i)
  end.

Definition find_from (c : ascii) (s : string) (from : nat) : option nat :=
  find_char_at c (drop from s) from.

(** [s.lstrip()], [s.rstrip()], [s.strip()] on a character class; with no
    argument the class is [is_space], with an argument it is membership in
    the argument. *)
Fixpoint lstrip_by (p : ascii -> bool) (s : string) : string :=
  match s with
  | EmptyString => EmptyString
  | String c s' => if p c then lstrip_by p s' else s
  end.

Fixpoint rstrip_by (p : ascii -> bool) (s : string) : string :=
  match s with
  | EmptyString => EmptyString
  | String c s' =>
      match rstrip_by p s' with
      | EmptyString => if p c then EmptyString else String c EmptyString
      | r => String c r
      end
  end.

Definition strip_by (p : ascii -> bool) (s : string) : string :=
  rstrip_by p (lstrip_by p s).

Definition strip (s : string) : string := strip_by is_space s.

Fixpoint mem_char (c : ascii) (chars : string) : bool :=
  match chars with
  | EmptyString => false
  | String x chars' => Ascii.eqb x c || mem_char c chars'
  end.

Definition strip_chars (chars s : string) : string :=
  strip_by (fun c => mem_char c chars) s.

(** [s.split(c)] for a one-character separator: empty fields are kept. *)
Fixpoint split_on (c : ascii) (s : string) : list string :=
  match s with
  | EmptyString => [EmptyString]
  | String x s' =>
      if Ascii.eqb x c then EmptyString :: split_on c s'
      else match split_on c s' with
           | h :: t => String x h :: t
           | [] => [String x EmptyString]
           end
  end.

(** [s.split(c, 1)]: the text before the first [c] and the text after it;
    [None] when [c] does not occur. *)
Fixpoint split_first (c : ascii) (s : string) : option (string * string) :=
  match s with
  | EmptyString => None
  | String x s' =>
      if Ascii.eqb x c then Some (EmptyString, s')
      else match split_first c s' with
           | Some (a, b) => Some (String x a, b)
           | None => None
           end
  end.

(** [s.split()]: the maximal runs of non-space characters. *)
Fixpoint split_ws (s : string) : list string :=
  match s with
  | EmptyString => []
  | String c s' =>
      if is_space c then split_ws s'
      else match s' with
           | EmptyString => [String c EmptyString]
           | String c' _ =>
               if is_space c' then String c EmptyString :: split_ws s'
               else match split_ws s' with
                    | h :: t => String c h :: t
                    | [] => [String c EmptyString]
                    end
           end
  end.

(** [sep.join(l)] *)
Fixpoint join (sep : string) (l : list string) : string :=
  match l with
  | [] => EmptyString
  | [x] => x
  | x :: l' => x ++ sep ++ join sep l'
  end.

(** [str(n)] for a non-negative integer *)
Definition str_of_nat (n : nat) : string :=
  NilZero.string_of_uint (Nat.to_uint n).

(** [l[:k]] on a list, for any Python integer [k]: a negative bound counts
    from the end. *)
Definition slice_to {A} (k : Z) (l : list A) : list A :=
  if (0 <=? k)%Z then firstn (Z.to_nat k) l
  else firstn (length l - Z.to_nat (- k)) l.

End PyStr.

Import PyStr.

(** ** The fragment of Python's [re] the scanner uses

    A backtracking matcher in continuation-passing style. Alternatives are
    tried in Python's order: a greedy repetition first takes as many
    characters as it can and gives them back one at a time, an optional part
    is first tried present. The patterns of the source repeat single
    character classes only, so [Star] and [Plus] take a class. [Grp] is the
    (only) capturing group, [Opt] is [(?:...)?], [Bnd] is [\b]. *)

Module Re.

Inductive regex : Type :=
| Lit (s : string)
| Cls (p : ascii -> bool)
| Star (p : ascii -> bool)
| Plus (p : ascii -> bool)
| Cat (r1 r2 : regex)
| Opt (r : regex)
| Grp (r : regex)
| Bnd.

(** The matcher's cursor: the character before it, the text after it, its
    index, and the span captured by group 1 so far. *)
Record cursor : Type := mkCursor {
  c_prev : option ascii;
  c_rest : string;
  c_pos : nat;
  c_grp : option (nat * nat)
}.

Section Matcher.
Context {R : Type}.

Fixpoint m_lit (l : string) (pv : option ascii) (s : string) (i : nat)
    (g : option (nat * nat)) (k : cursor -> option R) : option R :=
  match l with
  | EmptyString => k (mkCursor pv s i g)
  | String a l' =>
      match s with
      | String c s' =>
          if Ascii.eqb a c then m_lit l' (Some c) s' (S i) g k else None
      | EmptyString => None
      end
  end.

Fixpoint m_star (p : ascii -> bool) (pv : option ascii) (s : string) (i : nat)
    (g : option (nat * nat)) (k : cursor -> option R) : option R :=
  match s with
  | String c s' =>
      if p c then
        match m_star p (Some c) s' (S i) g k with
        | Some r => Some r
        | None => k (mkCursor pv s i g)
        end
      else k (mkCursor pv s i g)
  | EmptyString => k (mkCursor pv s i g)
  end.

Definition at_boundary (pv : option ascii) (s : string) : bool :=
  let before := match pv with Some c => is_word c | None => false end in
  let after := match s with String c _ => is_word c | EmptyString => false end in
  xorb before after.

Fixpoint m_re (r : regex) (cu : cursor) (k : cursor -> option R) : option R :=
  match r with
  | Lit l => m_lit l (c_prev cu) (c_rest cu) (c_pos cu) (c_grp cu) k
  | Cls p =>
      match c_rest cu with
      | String c s' =>
          if p c then k (mkCursor (Some c) s' (S (c_pos cu)) (c_grp cu))
          else None
      | EmptyString => None
      end
  | Star p => m_star p (c_prev cu) (c_rest cu) (c_pos cu) (c_grp cu) k
  | Plus p =>
      match c_rest cu with
      | String c s' =>
          if p c then m_star p (Some c) s' (S (c_pos cu)) (c_grp cu) k
          else None
      | EmptyString => None
      end
  | Cat r1 r2 => m_re r1 cu (fun cu' => m_re r2 cu' k)
  | Opt r' =>
      match m_re r' cu k with
      | Some x => Some x
      | None => k cu
      end
  | Grp r' =>
      m_re r' cu (fun cu' =>
        k (mkCursor (c_prev cu') (c_rest cu') (c_pos cu')
             (Some (c_pos cu, c_pos cu'))))
  | Bnd => if at_boundary (c_prev cu) (c_rest cu) then k cu else None
  end.

End Matcher.

(** A match object: [m.start()], [m.end()] and the span of [m.group(1)]. *)
Record match_obj : Type := mkMatch {
  m_start : nat;
  m_end : nat;
  m_span1 : option (nat * nat)
}.

(** The match of [r] that starts at the cursor, if there is one. *)
Definition match_here (r : regex) (cu : cursor) : option match_obj :=
  m_re r (mkCursor (c_prev cu) (c_rest cu) (c_pos cu) None)
    (fun cu' => Some (mkMatch (c_pos cu) (c_pos cu') (c_grp cu'))).

(** [re.finditer(r, s)]: the leftmost match, then the leftmost match that
    starts at or after its end, and so on. [skip] counts the characters
    still inside the previous match. The patterns of the source match no
    empty string, so the rules for empty matches are not modelled. *)
Fixpoint scan (r : regex) (pv : option ascii) (s : string) (i skip : nat)
    : list match_obj :=
  match s with
  | EmptyString => []
  | String c s' =>
      match skip with
      | S skip' => scan r (Some c) s' (S i) skip'
      | O =>
          match match_here r (mkCursor pv s i None) with
          | Some m => m :: scan r (Some c) s' (S i) (m_end m - i - 1)
          | None => scan r (Some c) s' (S i) 0
          end
      end
  end.

Definition finditer (r : regex) (s : string) : list match_obj :=
  scan r None s 0 0.

(** [re.search(r, s)] *)
Definition search (r : regex) (s : string) : option match_obj :=
  hd_error (finditer r s).

(** [m.group(0)] and [m.group(1)] on the subject [s] *)
Definition group0 (s : string) (m : match_obj) : string :=
  slice (m_start m) (m_end m) s.

Definition group1 (s : string) (m : match_obj) : string :=
  match m_span1 m with
  | Some (a, b) => slice a b s
  | None => EmptyString
  end.

(** [re.findall(r, s)] for a pattern without groups *)
Definition findall (r : regex) (s : string) : list string :=
  map (group0 s) (finditer r s).

Definition cat (l : list regex) : regex :=
  fold_right Cat (Lit EmptyString) l.

Definition char_is (c : ascii) : ascii -> bool := fun x => Ascii.eqb x c.
Definition char_isnt (c : ascii) : ascii -> bool := fun x => negb (Ascii.eqb x c).

End Re.

Import Re.

(** ** Data model *)

(** A double-precision float of an embedding vector; no modelled operation
    looks inside one, so it is carried as its IEEE-754 bit pattern. *)
Definition double : Type := Z.

(** [@dataclass CodeEntity] *)
Record CodeEntity : Type := mkEntity {
  entity_id : string;
  entity_type : string;
  name : string;
  file_path : string;
  line_number : nat;
  content : string;
  summary : string;
  signature : string;
  parent_entity : option string;
  embedding : option (list double)
}.

(** A Go file the directory walk found: its path under the root and the text
    [read_text] returns, [None] when reading raises. *)
Record GoFile : Type := mkGoFile {
  rel_path : string;
  source : option string
}.

(** ** GoCodeParser *)

Module GoCodeParser.

(** The pattern [package\s+(\w+)] *)
Definition package_pattern : regex :=
  cat [Lit "package"; Plus is_space; Grp (Plus is_word)].

(** The pattern, laid out with spaces between its parts:
    [func \s* (?: \( [^)]* \) \s* )? (\w+) \s* \( [^)]* \) \s* (?: \( [^)]* \) )? \s* \{] *)
Definition func_pattern : regex :=
  cat [Lit "func"; Star is_space;
       Opt (cat [Lit "("; Star (char_isnt ")"); Lit ")"; Star is_space]);
       Grp (Plus is_word); Star is_space;
       Lit "("; Star (char_isnt ")"); Lit ")"; Star is_space;
       Opt (cat [Lit "("; Star (char_isnt ")"); Lit ")"]);
       Star is_space; Lit "{"].

(** The pattern [type\s+(\w+)\s+struct \s* \{] *)
Definition struct_pattern : regex :=
  cat [Lit "type"; Plus is_space; Grp (Plus is_word); Plus is_space;
       Lit "struct"; Star is_space; Lit "{"].

(** The pattern [type\s+(\w+)\s+interface \s* \{] *)
Definition interface_pattern : regex :=
  cat [Lit "type"; Plus is_space; Grp (Plus is_word); Plus is_space;
       Lit "interface"; Star is_space; Lit "{"].

(** [_extract_package] *)
Definition _extract_package (content : string) : string :=
  match Re.search package_pattern content with
  | Some m => group1 content m
  | None => "unknown"
  end.

(** The loop of [_extract_file_summary] over the first twenty lines: a
    comment line is collected, a blank line or a [package] line is passed
    over, any other line ends the loop. *)
Fixpoint summary_loop (lines : list string) : list string :=
  match lines with
  | [] => []
  | line :: rest =>
      if startswith "//" (strip line) then
        strip (strip_chars "//" line) :: summary_loop rest
      else if negb (String.eqb (strip line) "")
              && negb (startswith "package" (strip line)) then []
      else summary_loop rest
  end.

(** [_extract_file_summary] *)
Definition _extract_file_summary (content : string) : string :=
  let lines := split_on "010" content in
  match summary_loop (firstn 20 lines) with
  | [] => "Go package"
  | summary_lines => take 200 (join " " summary_lines)
  end.

(** The [while] loop of [_extract_code_block]: from [pos], with [depth]
    braces open, the index just past the brace that closes the block, or the
    length of the content when none does. [s] is [content[pos:]]. *)
Fixpoint close_scan (s : string) (pos depth : nat) : nat :=
  match depth with
  | O => pos
  | S d =>
      match s with
      | EmptyString => pos
      | String c s' =>
          if Ascii.eqb c "{" then close_scan s' (S pos) (S depth)
          else if Ascii.eqb c "}" then close_scan s' (S pos) d
          else close_scan s' (S pos) depth
      end
  end.

(** [_extract_code_block(content, start, end)]: signature and body. *)
Definition _extract_code_block (content : string) (start end_ : nat)
    : string * string :=
  match find_from "{" content end_ with
  | None => (slice start end_ content, "")
  | Some brace_pos =>
      let signature := strip (slice start brace_pos content) in
      let pos := close_scan (drop (brace_pos + 1) content) (brace_pos + 1) 1 in
      let body := slice brace_pos (Nat.min pos (brace_pos + 500)) content in
      (signature, body)
  end.

(** The line of an index: the newlines of [content[:i]], plus one. *)
Definition line_of (content : string) (i : nat) : nat :=
  count_char "010" (take i content) + 1.

(** [_extract_functions]: the entities it appends, in order. *)
Definition _extract_functions (content file_path parent_id : string)
    : list CodeEntity :=
  flat_map (fun m =>
    let func_name := group1 content m in
    let line_number := line_of content (m_start m) in
    let '(signature, body) :=
      _extract_code_block content (m_start m) (m_end m) in
    if startswith "Test" func_name then []
    else [mkEntity
            ("func:" ++ file_path ++ ":" ++ func_name ++ ":"
               ++ str_of_nat line_number)
            "function" func_name file_path line_number
            (take 300 body)
            ("Function " ++ func_name)
            signature (Some parent_id) None])
    (finditer func_pattern content).

(** [_extract_types]: structs first, then interfaces. *)
Definition _extract_types (content file_path parent_id : string)
    : list CodeEntity :=
  flat_map (fun '(pattern, type_name) =>
    map (fun m =>
      let name := group1 content m in
      let line_number := line_of content (m_start m) in
      let '(signature, body) :=
        _extract_code_block content (m_start m) (m_end m) in
      mkEntity
        (type_name ++ ":" ++ file_path ++ ":" ++ name ++ ":"
           ++ str_of_nat line_number)
        type_name name file_path line_number
        (take 300 body)
        (capitalize type_name ++ " " ++ name)
        signature (Some parent_id) None)
      (finditer pattern content))
    [(struct_pattern, "struct"); (interface_pattern, "interface")].

(** [Path.name]: the last component of a path. *)
Definition path_name (p : string) : string :=
  last (split_on "/" p) EmptyString.

(** The file-level entity [_parse_file] builds first. *)
Definition file_entity_of (relative_path content : string) : CodeEntity :=
  mkEntity ("file:" ++ relative_path) "file" (path_name relative_path)
    relative_path 1 (take 500 content)
    (_extract_file_summary content)
    ("package " ++ _extract_package content) None None.

(** [_parse_file]: the entities one file adds to [self.entities]. A file
    that cannot be read adds none. *)
Definition _parse_file (f : GoFile) : list CodeEntity :=
  match source f with
  | None => []
  | Some content =>
      let file_entity := file_entity_of (rel_path f) content in
      file_entity
        :: _extract_functions content (rel_path f) (entity_id file_entity)
        ++ _extract_types content (rel_path f) (entity_id file_entity)
  end.

(** [parse_all] on a parser rooted at [root_dir], over the files the walk
    found in order; [str(go_file)] is the root joined with the path. *)
Definition parse_all (root_dir : string) (go_files : list GoFile)
    : list CodeEntity :=
  flat_map (fun f =>
    if contains "_test.go" (root_dir ++ "/" ++ rel_path f) then []
    else _parse_file f) go_files.

End GoCodeParser.

Import GoCodeParser.

(** ** CodebaseRAG: the store *)

(** A row of the [entities] table holds the ten columns of a [CodeEntity];
    the BLOB of the [embedding] column is the list of doubles it packs. *)
Definition Row : Type := CodeEntity.

(** The database: the [entities] table and the [search_index] table, whose
    rows are a key and a keyword string. Both have [entity_id] as primary
    key. *)
Record Store : Type := mkStore {
  entities : list Row;
  search_index : list (string * string)
}.

Definition empty_store : Store := mkStore [] [].

(** [INSERT OR REPLACE] into a table keyed by [key]. *)
Definition replace_into {A} (key : A -> string) (row : A) (tbl : list A)
    : list A :=
  filter (fun r => negb (String.eqb (key r) (key row))) tbl ++ [row].

(** [SELECT ... WHERE entity_id = ?] followed by [fetchone()]. *)
Definition fetchone {A} (key : A -> string) (k : string) (tbl : list A)
    : option A :=
  find (fun r => String.eqb (key r) k) tbl.

Module CodebaseRAG.

(** The pattern [\b\w+\b] *)
Definition word_pattern : regex := cat [Bnd; Plus is_word; Bnd].

(** [_create_keywords] *)
Definition _create_keywords (entity : CodeEntity) : string :=
  let words :=
    findall word_pattern (name entity)
      ++ [entity_type entity]
      ++ firstn 5 (findall word_pattern (summary entity))
      ++ split_on "/" (file_path entity) in
  lower (join " " words).

(** The bytes bound to the [embedding] column: [None] when the generator
    gives nothing or an empty vector. *)
Definition embedding_bytes (embedding : option (list double))
    : option (list double) :=
  match embedding with
  | Some (x :: v) => Some (x :: v)
  | _ => None
  end.

(** The tuple bound to the [INSERT] into [entities]. [generate] is
    [EmbeddingGenerator.generate]; it is [fun _ => None] when no model is
    loaded. *)
Definition entity_row (generate : CodeEntity -> option (list double))
    (entity : CodeEntity) : Row :=
  mkEntity (entity_id entity) (entity_type entity) (name entity)
    (file_path entity) (line_number entity) (content entity)
    (summary entity) (signature entity) (parent_entity entity)
    (embedding_bytes (generate entity)).

(** One turn of the loop of [index_entities]: the two upserts. *)
Definition index_entity (generate : CodeEntity -> option (list double))
    (st : Store) (entity : CodeEntity) : Store :=
  mkStore (replace_into entity_id (entity_row generate entity) (entities st))
          (replace_into fst (entity_id entity, _create_keywords entity)
             (search_index st)).

(** [index_entities] *)
Definition index_entities (generate : CodeEntity -> option (list double))
    (es : list CodeEntity) (st : Store) : Store :=
  fold_left (index_entity generate) es st.

(** ** CodebaseRAG: search *)

(** A value of a result dictionary. *)
Inductive value : Type :=
| VNone
| VStr (s : string)
| VInt (n : nat)
| VBlob (b : list double).

(** A Python [dict] with string keys, in insertion order. *)
Definition dict : Type := list (string * value).

Definition dict_get (k : string) (d : dict) : option value :=
  option_map snd (find (fun kv => String.eqb (fst kv) k) d).

(** The value [SELECT *] returns in each column of a row. *)
Definition column (c : string) (r : Row) : option value :=
  if String.eqb c "entity_id" then Some (VStr (entity_id r))
  else if String.eqb c "entity_type" then Some (VStr (entity_type r))
  else if String.eqb c "name" then Some (VStr (name r))
  else if String.eqb c "file_path" then Some (VStr (file_path r))
  else if String.eqb c "line_number" then Some (VInt (line_number r))
  else if String.eqb c "content" then Some (VStr (content r))
  else if String.eqb c "summary" then Some (VStr (summary r))
  else if String.eqb c "signature" then Some (VStr (signature r))
  else if String.eqb c "parent_entity" then
    Some (match parent_entity r with Some p => VStr p | None => VNone end)
  else if String.eqb c "embedding" then
    Some (match embedding r with Some b => VBlob b | None => VNone end)
  else None.

(** The ten columns of the [entities] table. *)
Definition entity_columns : list string :=
  ["entity_id"; "entity_type"; "name"; "file_path"; "line_number";
   "content"; "summary"; "signature"; "parent_entity"; "embedding"].

(** The dictionary [search] builds from a fetched row. *)
Definition result_of_row (entity_data : Row) : dict :=
  [("entity_id", VStr (entity_id entity_data));
   ("entity_type", VStr (entity_type entity_data));
   ("name", VStr (name entity_data));
   ("file_path", VStr (file_path entity_data));
   ("line_number", VInt (line_number entity_data));
   ("content", VStr (content entity_data));
   ("summary", VStr (summary entity_data));
   ("signature", VStr (signature entity_data))].

(** The statement text and parameters [search] assembles for the type
    filter. The source builds them and never executes them. *)
Definition filter_statement (entity_types : option (list string))
    : string * list string :=
  match entity_types with
  | Some (t :: ts) =>
      (("SELECT * FROM entities WHERE 1=1 AND entity_type IN ("
          ++ join "," (map (fun _ => "?") (t :: ts)) ++ ")")%string, t :: ts)
  | _ => ("SELECT * FROM entities WHERE 1=1", [])
  end.

(** [sum(1 for kw in keywords if kw in keywords_text)] *)
Definition match_count (keywords : list string) (keywords_text : string)
    : nat :=
  length (filter (fun kw => contains kw keywords_text) keywords).

(** The rows of [search_index] as [SELECT entity_id FROM search_index]
    visits them. The statement reads the primary key alone and has no
    [ORDER BY]; SQLite answers it from the index of the primary key, so the
    keys come in ascending order ([String.leb]: character by character,
    a shorter string first), not in the order of insertion. *)
Fixpoint insert_key (row : string * string) (l : list (string * string))
    : list (string * string) :=
  match l with
  | [] => [row]
  | y :: l' =>
      if String.leb (fst row) (fst y) then row :: y :: l'
      else y :: insert_key row l'
  end.

Definition key_scan (tbl : list (string * string))
    : list (string * string) :=
  fold_right insert_key [] tbl.

(** The loop that fills [matching_ids]. *)
Definition matching_ids (st : Store) (keywords : list string)
    : list (string * nat) :=
  flat_map (fun row =>
    let entity_id := fst row in
    match fetchone fst entity_id (search_index st) with
    | Some keywords_str =>
        let keywords_text := lower (snd keywords_str) in
        let mc := match_count keywords keywords_text in
        if (0 <? mc)%nat then [(entity_id, mc)] else []
    | None => []
    end) (key_scan (search_index st)).

(** [l.sort(key=lambda x: x[1], reverse=True)]: Python's sort is stable,
    also when reversed, so the result is the one of a stable insertion sort
    by decreasing count. *)
Fixpoint insert_desc (x : string * nat) (l : list (string * nat))
    : list (string * nat) :=
  match l with
  | [] => [x]
  | y :: l' =>
      if (snd y <=? snd x)%nat then x :: y :: l' else y :: insert_desc x l'
  end.

Definition sort_desc (l : list (string * nat)) : list (string * nat) :=
  fold_right insert_desc [] l.

(** [search(query, limit, entity_types)] *)
Definition search (st : Store) (query : string) (limit : Z)
    (entity_types : option (list string)) : list dict :=
  let _sql := filter_statement entity_types in
  let keywords := split_ws (lower query) in
  let ranked := sort_desc (matching_ids st keywords) in
  flat_map (fun idc =>
    match fetchone entity_id (fst idc) (entities st) with
    | Some entity_data => [result_of_row entity_data]
    | None => []
    end) (slice_to limit ranked).

End CodebaseRAG.

Import CodebaseRAG.

(** ** The interactive loop of [main] *)

(** The search options the loop derives from a query that is no command:
    the type filter and the text it searches for. *)
Definition search_options (query : string) : option (list string) * string :=
  match split_first ":" query with
  | Some (prefix, search_query) =>
      if String.eqb prefix "func" then (Some ["function"], search_query)
      else if String.eqb prefix "struct" then (Some ["struct"], search_query)
      else if String.eqb prefix "file" then (Some ["file"], search_query)
      else (None, search_query)
  | None => (None, query)
  end.

(** What one line of input does. *)
Inductive reply : Type :=
| Quit
| Overview
| Help
| Again
| Results (results : list dict).

Definition handle_line (st : Store) (line : string) : reply :=
  let query := strip line in
  if String.eqb (lower query) "quit" then Quit
  else if String.eqb (lower query) "arch" then Overview
  else if String.eqb (lower query) "help" then Help
  else if String.eqb query "" then Again
  else
    let '(entity_types, search_query) := search_options query in
    Results (search st search_query 10 entity_types).

(** ** Notions the properties are stated with *)

(** [l1] is [l2] with some elements left out, the others in their order. *)
Inductive Subseq {A : Type} : list A -> list A -> Prop :=
| Subseq_nil : Subseq [] []
| Subseq_skip : forall x l1 l2, Subseq l1 l2 -> Subseq l1 (x :: l2)
| Subseq_keep : forall x l1 l2, Subseq l1 l2 -> Subseq (x :: l1) (x :: l2).

(** The identifier a result dictionary carries. *)
Definition result_id (d : dict) : string :=
  match dict_get "entity_id" d with
  | Some (VStr s) => s
  | _ => EmptyString
  end.

(** The match count [search] computes for the entity [eid] on [query]. *)
Definition score (st : Store) (query : string) (eid : string) : nat :=
  match fetchone fst eid (search_index st) with
  | Some keywords_str =>
      match_count (split_ws (lower query)) (lower (snd keywords_str))
  | None => 0
  end.

(** The cursor [cu] stands at its index in [content]. *)
Definition cursor_in (content : string) (cu : cursor) : Prop :=
  c_rest cu = drop (c_pos cu) content.

(** The continuation [k] gives [x] at a cursor that is in [content] and not
    before [cu]: what a successful match from [cu] does. *)
Definition reaches {R : Type} (content : string) (cu : cursor)
    (k : cursor -> option R) (x : R) : Prop :=
  exists cu', cursor_in content cu' /\ c_pos cu <= c_pos cu' /\
              k cu' = Some x.

(** The match [m] ends just past an opening brace of [content]. *)
Definition ends_at_brace (content : string) (m : match_obj) : Prop :=
  exists p t, m_start m <= p /\ m_end m = S p /\
              drop p content = String "{" t.

(** The order of a ranked list: counts do not increase. *)
Definition by_count_desc (a b : string * nat) : Prop := snd b <= snd a.

(** The order of the keys in the index of a primary key. *)
Definition ascending (a b : string) : Prop := String.leb a b = true.

(** The pairs whose entity [search] finds in [entities], among those the
    slice keeps of the ranking. *)
Definition found_pairs (st : Store) (query : string) (limit : Z)
    : list (string * nat) :=
  filter (fun idc =>
            match fetchone entity_id (fst idc) (entities st) with
            | Some _ => true
            | None => false
            end)
         (slice_to limit (sort_desc (matching_ids st (split_ws (lower query))))).

(** The eight keys of a result dictionary. *)
Definition result_columns : list string :=
  ["entity_id"; "entity_type"; "name"; "file_path"; "line_number";
   "content"; "summary"; "signature"].

(** The dictionary [d] holds, under each key of [cols], the value a row of
    the store has in that column. *)
Definition carries (cols : list string) (st : Store) (d : dict) : Prop :=
  exists row, In row (entities st) /\
    forall c, In c cols -> dict_get c d = column c row.

(** [c'] is the character [c] in either case: [c] itself, its small
    letter, or its capital where that is one character of the model. *)
Definition same_letter (c c' : ascii) : Prop :=
  c' = c \/ c' = lower_char c \/ c' = upper_char c.

(** [q'] is [q] with the case of some letters changed. *)
Inductive case_variant : string -> string -> Prop :=
| cv_empty : case_variant EmptyString EmptyString
| cv_char : forall c c' q q',
    same_letter c c' -> case_variant q q' ->
    case_variant (String c q) (String c' q').

(** The declared kinds of entity other than [file]. *)
Definition is_declaration (t : string) : Prop :=
  t = "function" \/ t = "struct" \/ t = "interface".

(** What [_parse_file] gives a file-level entity. *)
Definition file_shape (e : CodeEntity) : Prop :=
  entity_type e = "file" /\
  entity_id e = ("file:" ++ file_path e)%string /\
  parent_entity e = None /\
  String.length (content e) <= 500.

(** What the extraction passes give a declaration found in the file at
    [path]. *)
Definition decl_shape (path : string) (e : CodeEntity) : Prop :=
  is_declaration (entity_type e) /\
  (forall p, entity_id e <> ("file:" ++ p)%string) /\
  file_path e = path /\
  parent_entity e = Some ("file:" ++ path)%string /\
  String.length (content e) <= 300.

(** The store a full indexing run leaves: the entities of [parse_all]
    indexed into a fresh database. *)
Definition index_run (generate : CodeEntity -> option (list double))
    (root_dir : string) (go_files : list GoFile) : Store :=
  index_entities generate (parse_all root_dir go_files) empty_store.

(** ** Inputs of the worked examples *)

Definition newline : string := String "010" EmptyString.

(** The example of the specification: a package clause and one function
    with a result type. *)
Definition add_source : string :=
  "package main" ++ newline ++ "func Add(a, b int) int { return a + b }".

Definition add_file : GoFile := mkGoFile "add.go" (Some add_source).

(** A function without a result type, which the function pattern matches. *)
Definition run_source : string :=
  "package main" ++ newline ++ "func Run() { work() }".

(** A file that declares a struct named [Add] and no function. *)
Definition adder_source : string :=
  "package calc" ++ newline ++ "type Add struct { total int }".

Definition adder_files : list GoFile :=
  [mkGoFile "calc/add.go" (Some adder_source)].

Definition adder_store : Store :=
  index_run (fun _ => None) "/repo" adder_files.

(** A file that declares a struct and then an interface, both with [add]
    in their names. *)
Definition tie_source : string :=
  "package calc" ++ newline ++ "type Add struct { n int }"
    ++ newline ++ "type Adder interface { Add() }".

Definition tie_store : Store :=
  index_run (fun _ => None) "/repo"
    [mkGoFile "calc/sum.go" (Some tie_source)].

(** The word [strasse] spelt with the sharp s (code point 223), and a
    store indexed from a file in a directory of that name. *)
Definition strasse : string := ("stra" ++ String "223" "e")%string.


(** The row of the struct in that store. *)
Definition adder_struct_row : Row :=
  mkEntity "struct:calc/add.go:Add:2" "struct" "Add" "calc/add.go" 2 ""
    "Struct Add" "type Add struct {" (Some "file:calc/add.go") None.

(** ** CodebaseRAG: the counting loop of the architecture overview *)

(** A [defaultdict(int)] used as a counter: its keys in the order of their
    first increment, each with its count. *)
Definition counter : Type := list (string * nat).

(** [d[k] += 1] *)
Fixpoint incr (k : string) (d : counter) : counter :=
  match d with
  | [] => [(k, 1)]
  | (k', n) :: d' =>
      if String.eqb k' k then (k', S n) :: d' else (k', n) :: incr k d'
  end.

(** [d[k]] read without inserting: the count of [k], 0 when [k] was never
    incremented. *)
Definition counter_get (k : string) (d : counter) : nat :=
  match find (fun kv => String.eqb (fst kv) k) d with
  | Some kv => snd kv
  | None => 0
  end.

(** [parts[0] if parts else "root"] on [file_path.split('/')] *)
Definition package_of (file_path : string) : string :=
  match split_on "/" file_path with
  | p :: _ => p
  | [] => "root"
  end.

(** The statistics the loop of [get_architecture_overview] fills. The
    [top_files] entry comes from a grouped SQL query whose order among equal
    counts the database decides; it is not modelled. *)
Record overview : Type := mkOverview {
  total_entities : nat;
  by_type : counter;
  by_package : counter
}.

Definition overview_step (stats : overview) (row : Row) : overview :=
  mkOverview (S (total_entities stats))
             (incr (entity_type row) (by_type stats))
             (incr (package_of (file_path row)) (by_package stats)).

Definition get_architecture_overview (st : Store) : overview :=
  fold_left overview_step (entities st) (mkOverview 0 [] []).

(** The three counts [main] prints after parsing: files, functions, and
    types (structs and interfaces). *)
Definition count_where (p : CodeEntity -> bool) (es : list CodeEntity) : nat :=
  length (filter p es).

Definition summary_files (es : list CodeEntity) : nat :=
  count_where (fun e => String.eqb (entity_type e) "file") es.

Definition summary_functions (es : list CodeEntity) : nat :=
  count_where (fun e => String.eqb (entity_type e) "function") es.

Definition summary_types (es : list CodeEntity) : nat :=
  count_where (fun e => String.eqb (entity_type e) "struct"
                        || String.eqb (entity_type e) "interface") es.

(** ** Notions of the further properties *)

(** The rows of [rows] upserted one after the other into a table. *)
Definition upsert_all {A} (key : A -> string) (rows : list A) (tbl : list A)
    : list A :=
  fold_left (fun t r => replace_into key r t) rows tbl.

(** The row [r] has a key that no row of [rows] has. *)
Definition untouched {A} (key : A -> string) (rows : list A) (r : A) : bool :=
  negb (existsb (fun r' => String.eqb (key r) (key r')) rows).

(** The row of the [search_index] table [index_entities] writes for an
    entity. *)
Definition keyword_row (e : CodeEntity) : string * string :=
  (entity_id e, _create_keywords e).

(** No two rows of [entities] share an [entity_id]. *)
Definition keys_unique (st : Store) : Prop :=
  NoDup (map entity_id (entities st)).

(** The two tables hold the same keys, row for row. *)
Definition keys_in_step (st : Store) : Prop :=
  map entity_id (entities st) = map fst (search_index st).

(** Every character of [s] is in the class [p]. *)
Fixpoint all_chars (p : ascii -> bool) (s : string) : bool :=
  match s with
  | EmptyString => true
  | String c s' => p c && all_chars p s'
  end.

(** The lines of a text: [content.split('\n')]. *)
Definition lines_of (content : string) : list string :=
  split_on "010" content.

(** Occurrences of one character in excess of another, as the brace scan
    counts them. *)
Definition opens (s : string) : nat := count_char "{" s.
Definition closes (s : string) : nat := count_char "}" s.

(** A text the brace scan cut out: empty, or an opening brace followed by
    characters the scan of [close_scan] went over. *)
Definition scanned_block (s : string) : Prop :=
  s = EmptyString \/
  exists t p m, s = String "{" (take m t) /\ m <= close_scan t p 1 - p.

(** The words [_create_keywords] collects for an entity, before they are
    joined and lower-cased. *)
Definition keyword_words (entity : CodeEntity) : list string :=
  findall word_pattern (name entity)
    ++ [entity_type entity]
    ++ firstn 5 (findall word_pattern (summary entity))
    ++ split_on "/" (file_path entity).

(** The group of a match is a word: not empty, of word characters only. *)
Definition word_group (content : string) (m : match_obj) : Prop :=
  exists a b, m_span1 m = Some (a, b) /\
    slice a b content <> EmptyString /\
    all_chars is_word (slice a b content) = true.

(** Every capturing group of a pattern is the group of one or more word
    characters. *)
Fixpoint word_groups (r : regex) : Prop :=
  match r with
  | Cat r1 r2 => word_groups r1 /\ word_groups r2
  | Opt r' => word_groups r'
  | Grp r' => r' = Plus is_word
  | _ => True
  end.

(** A pattern that cannot match without going through its capturing
    group. *)
Fixpoint has_group (r : regex) : Prop :=
  match r with
  | Grp _ => True
  | Cat r1 r2 => has_group r1 \/ has_group r2
  | _ => False
  end.

(** The span the cursor holds for group 1, if any, is a word of the
    content. *)
Definition word_span (content : string) (cu : cursor) : Prop :=
  match c_grp cu with
  | Some (a, b) =>
      slice a b content <> EmptyString /\
      all_chars is_word (slice a b content) = true
  | None => True
  end.

(** A second file for the examples: a function and a test function. *)
Definition runner_files : list GoFile :=
  [mkGoFile "cmd/run.go" (Some run_source);
   mkGoFile "cmd/run_test.go" (Some run_source)].

(** * Properties *)

(** Reduce the projections of an entity built by the code, and nothing
    else: the slices of the source text stay folded. *)
Ltac fields :=
  cbn [entity_id entity_type name file_path line_number content summary
       signature parent_entity embedding fst snd].

Ltac fields_in H :=
  cbn [entity_id entity_type name file_path line_number content summary
       signature parent_entity embedding fst snd] in H.

(** ** Strings *)

Section StringFacts.

Lemma take_length (n : nat) (s : string) : String.length (take n s) <= n.
Proof.
  revert s; induction n as [|n IH]; intros [|c s]; simpl; try lia.
  specialize (IH s); lia.
Qed.

Lemma lower_char_idem (c : ascii) : lower_char (lower_char c) = lower_char c.
Proof.
  destruct c as [[] [] [] [] [] [] [] []]; reflexivity.
Qed.


Lemma lower_idem (s : string) : lower (lower s) = lower s.
Proof.
  induction s as [|c s IH]; simpl; [reflexivity|].
  now rewrite lower_char_idem, IH.
Qed.



Lemma case_variant_refl (q : string) : case_variant q q.
Proof.
  induction q; constructor; auto. now left.
Qed.

Lemma lower_is_case_variant (q : string) : case_variant q (lower q).
Proof.
  induction q; simpl; constructor; auto. right; now left.
Qed.

(** Splitting at the first colon undoes the joining of a colon-free prefix
    and a remainder. *)
Lemma split_first_app (c : ascii) (a b : string) :
  mem_char c a = false ->
  split_first c (a ++ String c b)%string = Some (a, b).
Proof.
  induction a as [|x a IH]; simpl.
  - now rewrite Ascii.eqb_refl.
  - intros H. apply orb_false_iff in H as [Hx Ha].
    rewrite Hx, (IH Ha). reflexivity.
Qed.

Lemma split_first_none (c : ascii) (s : string) :
  mem_char c s = false -> split_first c s = None.
Proof.
  induction s as [|x s IH]; simpl; [reflexivity|].
  intros H. apply orb_false_iff in H as [Hx Hs].
  now rewrite Hx, (IH Hs).
Qed.

End StringFacts.

(** ** Tables *)

Section TableFacts.
Context {A : Type} (key : A -> string).

Lemma in_replace_into (row r : A) (tbl : list A) :
  In r (replace_into key row tbl) -> r = row \/ In r tbl.
Proof.
  unfold replace_into. rewrite in_app_iff, filter_In.
  intros [[H _] | [H | []]]; auto.
Qed.

Lemma replace_into_new (row : A) (tbl : list A) :
  In row (replace_into key row tbl).
Proof.
  unfold replace_into. rewrite in_app_iff. right; now left.
Qed.

Lemma replace_into_other (row r : A) (tbl : list A) :
  In r tbl -> key r <> key row -> In r (replace_into key row tbl).
Proof.
  intros Hin Hne. unfold replace_into. rewrite in_app_iff, filter_In.
  left; split; [assumption|].
  apply negb_true_iff, String.eqb_neq, Hne.
Qed.

Lemma fetchone_key (k : string) (tbl : list A) (r : A) :
  fetchone key k tbl = Some r -> In r tbl /\ key r = k.
Proof.
  unfold fetchone. intros H. apply find_some in H as [Hin Hk].
  split; [assumption | now apply String.eqb_eq].
Qed.

End TableFacts.

(** ** The parser *)

Section ParserFacts.

Lemma file_entity_shape (path text : string) :
  file_shape (file_entity_of path text).
Proof.
  unfold file_shape, file_entity_of; fields.
  repeat split. apply take_length.
Qed.

Lemma extract_functions_shape (text path : string) (e : CodeEntity) :
  In e (_extract_functions text path ("file:" ++ path)%string) ->
  entity_type e = "function" /\ decl_shape path e.
Proof.
  unfold _extract_functions. rewrite in_flat_map.
  intros (m & _ & Hin).
  destruct (_extract_code_block text (m_start m) (m_end m)) as [sg body].
  destruct (startswith "Test" (group1 text m)); [contradiction|].
  destruct Hin as [<- | []]. split; [reflexivity|].
  unfold decl_shape, is_declaration; fields.
  repeat split; auto using take_length.
  intros p H; simpl in H; congruence.
Qed.

Lemma extract_types_shape (text path : string) (e : CodeEntity) :
  In e (_extract_types text path ("file:" ++ path)%string) ->
  (entity_type e = "struct" \/ entity_type e = "interface") /\
  decl_shape path e.
Proof.
  unfold _extract_types. rewrite in_flat_map.
  intros ([pat ty] & Hpat & Hin).
  rewrite in_map_iff in Hin. destruct Hin as (m & <- & _).
  destruct (_extract_code_block text (m_start m) (m_end m)) as [sg body].
  unfold decl_shape, is_declaration.
  destruct Hpat as [Hp | [Hp | []]]; inversion Hp; subst; fields;
    (split; [auto|]); repeat split; auto using take_length;
    intros p H; simpl in H; congruence.
Qed.

(** An entity of a run is the file-level entity of one of its files, or a
    declaration whose file-level entity the same run produced. *)
Lemma parse_all_shape (root : string) (files : list GoFile) (e : CodeEntity) :
  In e (parse_all root files) ->
  file_shape e \/
  (decl_shape (file_path e) e /\
   exists f, In f (parse_all root files) /\ file_shape f /\
             file_path f = file_path e).
Proof.
  unfold parse_all. rewrite in_flat_map. intros (gf & Hgf & Hin).
  destruct (contains "_test.go" (root ++ "/" ++ rel_path gf)%string) eqn:Htest;
    [contradiction|].
  unfold _parse_file in Hin.
  destruct (source gf) as [text|] eqn:Hsrc; [|contradiction].
  assert (Hfile : In (file_entity_of (rel_path gf) text)
                     (parse_all root files)).
  { unfold parse_all. rewrite in_flat_map. exists gf. split; [assumption|].
    rewrite Htest. unfold _parse_file. rewrite Hsrc. now left. }
  destruct Hin as [<- | Hin]; [left; apply file_entity_shape|].
  right. fields_in Hin. rewrite in_app_iff in Hin.
  assert (Hd : decl_shape (rel_path gf) e).
  { destruct Hin as [H | H].
    - now apply extract_functions_shape in H.
    - now apply extract_types_shape in H. }
  assert (Hp : file_path e = rel_path gf) by apply Hd.
  rewrite Hp. split; [assumption|].
  exists (file_entity_of (rel_path gf) text).
  split; [assumption|]. split; [apply file_entity_shape | reflexivity].
Qed.

End ParserFacts.

(** ** Indexing *)

Section IndexFacts.
Variable generate : CodeEntity -> option (list double).

(** A row of the store after indexing was there before or is the row of
    one of the indexed entities. *)
Lemma index_entities_rows (es : list CodeEntity) (st : Store) (row : Row) :
  In row (entities (index_entities generate es st)) ->
  In row (entities st) \/ exists e, In e es /\ row = entity_row generate e.
Proof.
  unfold index_entities. revert st.
  induction es as [|e es IH]; intros st H; simpl in H; [now left|].
  apply IH in H as [H | (e' & He' & ->)].
  - apply in_replace_into in H as [-> | H]; [right | now left].
    exists e. split; [now left | reflexivity].
  - right. exists e'. split; [now right | reflexivity].
Qed.

(** An identifier some indexed entity has is in the store afterwards, and
    its row has every property that the rows of all entities with this
    identifier have. *)
Lemma index_entities_keeps (Q : Row -> Prop) (k : string)
    (es : list CodeEntity) (st : Store) :
  (exists e, In e es /\ entity_id e = k) ->
  (forall e, In e es -> entity_id e = k -> Q (entity_row generate e)) ->
  exists row, In row (entities (index_entities generate es st)) /\
              entity_id row = k /\ Q row.
Proof.
  unfold index_entities.
  induction es as [|e es IH] using rev_ind; intros (e0 & Hin & Hk) HQ.
  - contradiction.
  - rewrite fold_left_app. cbn [fold_left index_entity entities].
    destruct (String.eqb (entity_id e) k) eqn:Hek.
    + apply String.eqb_eq in Hek.
      exists (entity_row generate e). split; [apply replace_into_new|].
      split; [exact Hek|]. apply HQ; [|exact Hek].
      apply in_app_iff. right; now left.
    + apply String.eqb_neq in Hek.
      destruct IH as (row & Hrow & Hid & Hq).
      * apply in_app_iff in Hin as [Hin | [-> | []]]; [|contradiction].
        exists e0. now split.
      * intros e' He'. apply HQ, in_app_iff. now left.
      * exists row. split; [|now split].
        apply replace_into_other; [assumption|].
        unfold entity_row; fields. congruence.
Qed.

End IndexFacts.

(** A declaration kind is not the kind [file]. *)
Lemma declaration_not_file (t : string) :
  is_declaration t -> t <> "file".
Proof.
  intros [-> | [-> | ->]]; discriminate.
Qed.

(** A row of an indexing run is the row of an entity of the run. *)
Lemma index_run_rows generate root files (row : Row) :
  In row (entities (index_run generate root files)) ->
  exists e, In e (parse_all root files) /\ row = entity_row generate e.
Proof.
  intros H. apply index_entities_rows in H as [[] | H]. exact H.
Qed.

(** C6: every entity an indexing run persists respects the cap of its
    content: at most 500 characters for a file entity, at most 300 for a
    function, struct or interface entity, whatever the size of the source. *)
Theorem C6_content_caps generate root files (row : Row) :
  In row (entities (index_run generate root files)) ->
  (entity_type row = "file" -> String.length (content row) <= 500) /\
  (is_declaration (entity_type row) -> String.length (content row) <= 300).
Proof.
  intros H. apply index_run_rows in H as (e & He & ->).
  unfold entity_row; fields.
  apply parse_all_shape in He as [Hf | [Hd _]].
  - destruct Hf as (Ht & _ & _ & Hlen). split; [auto|].
    intros Hdecl. apply declaration_not_file in Hdecl. contradiction.
  - destruct Hd as (Ht & _ & _ & _ & Hlen). split; [|auto].
    intros Hfile. apply declaration_not_file in Ht. contradiction.
Qed.

Lemma C6_content_caps_witness :
  In adder_struct_row (entities adder_store) /\
  (entity_type adder_struct_row = "file" ->
   String.length (content adder_struct_row) <= 500) /\
  (is_declaration (entity_type adder_struct_row) ->
   String.length (content adder_struct_row) <= 300).
Proof.
  assert (H : In adder_struct_row (entities adder_store))
    by (vm_compute; auto).
  split; [exact H|].
  exact (C6_content_caps (fun _ => None) "/repo" adder_files
           adder_struct_row H).
Defined.

(** C9: after an indexing run every file entity has no parent, and every
    function, struct or interface entity has as parent the identifier of a
    file entity that the same run produced and persisted, the entity of the
    file it was extracted from. *)
Theorem C9_parent_is_file_of_run generate root files (row : Row) :
  In row (entities (index_run generate root files)) ->
  (entity_type row = "file" -> parent_entity row = None) /\
  (is_declaration (entity_type row) ->
   exists frow,
     In frow (entities (index_run generate root files)) /\
     entity_type frow = "file" /\
     file_path frow = file_path row /\
     parent_entity row = Some (entity_id frow) /\
     exists f, In f (parse_all root files) /\ entity_type f = "file" /\
               entity_id f = entity_id frow).
Proof.
  intros H. apply index_run_rows in H as (e & He & ->).
  unfold entity_row; fields.
  destruct (parse_all_shape _ _ _ He) as [Hf | [Hd (f & Hfin & Hfs & Hfp)]].
  - destruct Hf as (Ht & _ & Hpar & _). split; [auto|].
    intros Hdecl. apply declaration_not_file in Hdecl. contradiction.
  - destruct Hd as (Ht & _ & _ & Hpar & _). split.
    { intros Hfile. apply declaration_not_file in Ht. contradiction. }
    intros _.
    destruct Hfs as (Hft & Hfid & _ & _). rewrite Hfp in Hfid.
    destruct (index_entities_keeps generate
                (fun r => entity_type r = "file" /\
                          file_path r = file_path e)
                (entity_id f) (parse_all root files) empty_store)
      as (frow & Hfrow & Hid & Hty & Hpath).
    + exists f. now split.
    + intros e' He' Hid'. unfold entity_row; fields.
      destruct (parse_all_shape _ _ _ He') as [Hf' | [Hd' _]].
      * destruct Hf' as (Ht' & Hid'' & _ & _). split; [assumption|].
        rewrite Hid'', Hfid in Hid'. simpl in Hid'. congruence.
      * destruct Hd' as (_ & Hne & _). exfalso.
        apply (Hne (file_path e)). congruence.
    + exists frow. repeat split; try assumption.
      * rewrite Hpar. f_equal. congruence.
      * exists f. repeat split; auto.
Qed.

Lemma C9_parent_is_file_of_run_witness :
  In adder_struct_row (entities adder_store) /\
  (entity_type adder_struct_row = "file" ->
   parent_entity adder_struct_row = None) /\
  (is_declaration (entity_type adder_struct_row) ->
   exists frow,
     In frow (entities adder_store) /\
     entity_type frow = "file" /\
     file_path frow = file_path adder_struct_row /\
     parent_entity adder_struct_row = Some (entity_id frow) /\
     exists f, In f (parse_all "/repo" adder_files) /\
               entity_type f = "file" /\ entity_id f = entity_id frow).
Proof.
  assert (H : In adder_struct_row (entities adder_store))
    by (vm_compute; auto).
  split; [exact H|].
  exact (C9_parent_is_file_of_run (fun _ => None) "/repo" adder_files
           adder_struct_row H).
Defined.

(** ** Search: matching *)

Section MatchingFacts.

Lemma flat_map_nil {A B} (f : A -> list B) (l : list A) :
  (forall x, In x l -> f x = []) -> flat_map f l = [].
Proof.
  induction l as [|x l IH]; intros H; simpl; [reflexivity|].
  rewrite (H x (or_introl eq_refl)), IH; [reflexivity|].
  intros y Hy. apply H. now right.
Qed.

Lemma match_count_zero (keywords : list string) (text : string) :
  (forall kw, In kw keywords -> contains kw text = false) ->
  match_count keywords text = 0.
Proof.
  unfold match_count.
  induction keywords as [|kw kws IH]; intros H; simpl; [reflexivity|].
  rewrite (H kw (or_introl eq_refl)). apply IH.
  intros kw' Hkw'. apply H. now right.
Qed.

Lemma matching_ids_nil (st : Store) (keywords : list string) :
  (forall row, In row (search_index st) ->
   forall kw, In kw keywords -> contains kw (lower (snd row)) = false) ->
  matching_ids st keywords = [].
Proof.
  intros H. unfold matching_ids. apply flat_map_nil. intros row _.
  destruct (fetchone fst (fst row) (search_index st)) as [r|] eqn:Hr;
    [|reflexivity].
  apply fetchone_key in Hr as [Hin _].
  now rewrite (match_count_zero _ _ (H r Hin)).
Qed.

Lemma slice_to_nil {A} (k : Z) : slice_to k (@nil A) = [].
Proof.
  unfold slice_to. destruct (0 <=? k)%Z; apply firstn_nil.
Qed.


(** The keyword string [_create_keywords] stores is lower-cased. *)
Lemma create_keywords_lower (e : CodeEntity) :
  lower (_create_keywords e) = _create_keywords e.
Proof.
  unfold _create_keywords. apply lower_idem.
Qed.

End MatchingFacts.

(** C8: when no token of the query occurs in any stored keyword string, and
    so also when the query has no token at all, [search] returns the empty
    list; it is a total function, no error arises. *)
Theorem C8_no_match_empty (st : Store) (query : string) (limit : Z)
    (entity_types : option (list string)) :
  (forall row, In row (search_index st) ->
   forall kw, In kw (split_ws (lower query)) ->
     contains kw (lower (snd row)) = false) ->
  search st query limit entity_types = [].
Proof.
  intros H. unfold search.
  rewrite (matching_ids_nil _ _ H). simpl. now rewrite slice_to_nil.
Qed.

Lemma C8_no_match_empty_witness :
  (forall row, In row (search_index adder_store) ->
   forall kw, In kw (split_ws (lower "zzznomatch")) ->
     contains kw (lower (snd row)) = false) /\
  search adder_store "zzznomatch" 10 None = [].
Proof.
  assert (H : forall row, In row (search_index adder_store) ->
              forall kw, In kw (split_ws (lower "zzznomatch")) ->
                contains kw (lower (snd row)) = false).
  { assert (E : search_index adder_store =
                  [("file:calc/add.go", "add go file go package calc add.go");
                   ("struct:calc/add.go:Add:2",
                    "add struct struct add calc add.go")])
      by (vm_compute; reflexivity).
    rewrite E. intros row Hrow kw Hkw. vm_compute in Hkw.
    destruct Hkw as [<- | []].
    destruct Hrow as [<- | [<- | []]]; vm_compute; reflexivity. }
  split; [exact H|].
  exact (C8_no_match_empty adder_store "zzznomatch" 10 None H).
Defined.

(** A query without tokens, such as a blank one, matches nothing. *)
Corollary search_no_tokens (st : Store) (query : string) (limit : Z)
    (entity_types : option (list string)) :
  split_ws (lower query) = [] -> search st query limit entity_types = [].
Proof.
  intros H. unfold search. rewrite H.
  rewrite matching_ids_nil by (intros ? ? ? []).
  simpl. now rewrite slice_to_nil.
Qed.




(** ** Search: the type filter *)

(** The result of [search] does not depend on [entity_types]. *)
Lemma search_ignores_entity_types (st : Store) (query : string) (limit : Z)
    (entity_types : option (list string)) :
  search st query limit entity_types = search st query limit None.
Proof. reflexivity. Qed.

(** C1, evaluated: the query [func:Add] sets the filter to functions, and
    the search on a store without any function returns its file entity and
    its struct entity. *)
Theorem C1_type_filter_not_applied :
  search_options "func:Add" = (Some ["function"], "Add") /\
  map (dict_get "entity_type")
      (search adder_store "Add" 10 (Some ["function"]))
    = [Some (VStr "file"); Some (VStr "struct")].
Proof.
  split; vm_compute; reflexivity.
Qed.

(** ** The query prefix *)

(** C2, refuted as stated: the query [foo:bar] is searched as [bar]. *)
Lemma C2_unknown_prefix_is_stripped :
  search_options "foo:bar" = (None, "bar") /\
  search_options "foo:bar" <> (None, "foo:bar").
Proof.
  split; vm_compute; [reflexivity | discriminate].
Qed.

(** C2, amended: for a query with a colon whose prefix is none of [func],
    [struct] and [file], no type filter is set and the text searched for is
    what follows the first colon. *)
Theorem C2_unknown_prefix (prefix rest : string) :
  mem_char ":" prefix = false ->
  prefix <> "func" -> prefix <> "struct" -> prefix <> "file" ->
  search_options (prefix ++ String ":" rest)%string = (None, rest).
Proof.
  intros Hcolon Hfunc Hstruct Hfile. unfold search_options.
  rewrite (split_first_app _ _ _ Hcolon).
  apply String.eqb_neq in Hfunc, Hstruct, Hfile.
  now rewrite Hfunc, Hstruct, Hfile.
Qed.

Lemma C2_unknown_prefix_witness :
  mem_char ":" "foo" = false /\
  "foo" <> "func" /\ "foo" <> "struct" /\ "foo" <> "file" /\
  search_options ("foo" ++ String ":" "bar")%string = (None, "bar").
Proof.
  repeat (split; [first [reflexivity | discriminate]|]).
  apply (C2_unknown_prefix "foo" "bar"); first [reflexivity | discriminate].
Defined.

(** ** The matcher and the opening brace *)

Section MatcherFacts.
Variable content : string.
Context {R : Type}.

Lemma drop_next (p : nat) (s : string) (c : ascii) (t : string) :
  drop p s = String c t -> drop (S p) s = t.
Proof.
  revert s; induction p as [|p IH]; intros [|x s] H; simpl in *;
    try discriminate.
  - now inversion H.
  - now apply IH.
Qed.

Lemma m_lit_reaches (l : string) pv s i g (k : cursor -> option R) x :
  s = drop i content -> m_lit l pv s i g k = Some x ->
  reaches content (mkCursor pv s i g) k x.
Proof.
  revert pv s i. induction l as [|a l IH]; intros pv s i Hs H; simpl in H.
  - exists (mkCursor pv s i g). now repeat split.
  - destruct s as [|c s']; [discriminate|].
    destruct (Ascii.eqb a c); [|discriminate].
    symmetry in Hs. apply drop_next in Hs.
    destruct (IH (Some c) s' (S i) (eq_sym Hs) H) as (cu' & Hin & Hle & Hk).
    exists cu'. simpl in *. repeat split; [assumption | lia | assumption].
Qed.

Lemma m_star_reaches (f : ascii -> bool) pv s i g
    (k : cursor -> option R) x :
  s = drop i content -> m_star f pv s i g k = Some x ->
  reaches content (mkCursor pv s i g) k x.
Proof.
  revert pv i. induction s as [|c s' IH]; intros pv i Hs H; simpl in H.
  - exists (mkCursor pv EmptyString i g). now repeat split.
  - assert (Hhere : k (mkCursor pv (String c s') i g) = Some x ->
                    reaches content (mkCursor pv (String c s') i g) k x).
    { intros Hk. exists (mkCursor pv (String c s') i g). now repeat split. }
    destruct (f c); [|auto].
    destruct (m_star f (Some c) s' (S i) g k) as [y|] eqn:Hrec; [|auto].
    inversion H; subst y.
    symmetry in Hs. apply drop_next in Hs.
    destruct (IH (Some c) (S i) (eq_sym Hs) Hrec) as (cu' & Hin & Hle & Hk).
    exists cu'. simpl in *. repeat split; [assumption | lia | assumption].
Qed.

Lemma m_re_reaches (r : regex) (cu : cursor) (k : cursor -> option R) x :
  cursor_in content cu -> m_re r cu k = Some x -> reaches content cu k x.
Proof.
  revert cu k. induction r as [l|f|f|f|r1 IH1 r2 IH2|r IH|r IH|];
    intros [pv s i g] k Hcu H; unfold cursor_in in Hcu; simpl in *.
  - now apply (m_lit_reaches l).
  - destruct s as [|c s']; [discriminate|].
    destruct (f c); [|discriminate].
    symmetry in Hcu. apply drop_next in Hcu.
    exists (mkCursor (Some c) s' (S i) g). unfold cursor_in. simpl.
    repeat split; [now symmetry | lia | assumption].
  - now apply (m_star_reaches f).
  - destruct s as [|c s']; [discriminate|].
    destruct (f c); [|discriminate].
    symmetry in Hcu. apply drop_next in Hcu.
    destruct (m_star_reaches f (Some c) s' (S i) g k x (eq_sym Hcu) H)
      as (cu' & Hin & Hle & Hk).
    exists cu'. simpl in *. repeat split; [assumption | lia | assumption].
  - destruct (IH1 (mkCursor pv s i g) _ Hcu H) as (cu1 & Hin1 & Hle1 & H1).
    destruct (IH2 _ _ Hin1 H1) as (cu2 & Hin2 & Hle2 & H2).
    exists cu2. simpl in *. repeat split; [assumption | lia | assumption].
  - destruct (m_re r (mkCursor pv s i g) k) as [y|] eqn:Hr.
    + inversion H; subst y. now apply (IH (mkCursor pv s i g)).
    + exists (mkCursor pv s i g). now repeat split.
  - destruct (IH (mkCursor pv s i g) _ Hcu H)
      as ([pv1 s1 i1 g1] & Hin1 & Hle1 & H1).
    simpl in *. exists (mkCursor pv1 s1 i1 (Some (i, i1))).
    repeat split; [exact Hin1 | exact Hle1 | exact H1].
  - destruct (at_boundary pv s); [|discriminate].
    exists (mkCursor pv s i g). now repeat split.
Qed.

(** A pattern whose last part is a literal [c] calls its continuation just
    past a [c] of the content. *)
Lemma m_re_last_char (c : ascii) (l : list regex) (cu : cursor)
    (k : cursor -> option R) x :
  cursor_in content cu ->
  m_re (cat (l ++ [Lit (String c EmptyString)])) cu k = Some x ->
  exists cu' p t, c_pos cu <= p /\ c_pos cu' = S p /\
                  drop p content = String c t /\ k cu' = Some x.
Proof.
  revert cu. induction l as [|r l IH]; intros cu Hcu H.
  - destruct cu as [pv s i g]. unfold cursor_in in Hcu. simpl in *.
    destruct s as [|a s']; [discriminate|].
    destruct (Ascii.eqb c a) eqn:Hca; [|discriminate].
    apply Ascii.eqb_eq in Hca. subst a.
    exists (mkCursor (Some c) s' (S i) g), i, s'. now repeat split.
  - change (m_re r cu (fun cu' =>
              m_re (cat (l ++ [Lit (String c EmptyString)])) cu' k) = Some x)
      in H.
    destruct (m_re_reaches _ _ _ _ Hcu H) as (cu1 & Hin1 & Hle1 & H1).
    destruct (IH _ Hin1 H1) as (cu' & p & t & Hle & Hpos & Hdrop & Hk).
    exists cu', p, t. repeat split; [lia | assumption..].
Qed.

End MatcherFacts.

Section BraceFacts.
Variable content : string.

Lemma match_here_ends_at_brace (l : list regex) (cu : cursor)
    (m : match_obj) :
  cursor_in content cu ->
  match_here (cat (l ++ [Lit "{"])) cu = Some m ->
  ends_at_brace content m.
Proof.
  intros Hcu H. unfold match_here in H.
  apply m_re_last_char with (content := content) in H; [|exact Hcu].
  destruct H as (cu' & p & t & Hle & Hpos & Hdrop & Hk).
  inversion Hk; subst m. exists p, t. simpl in *. now repeat split.
Qed.

Lemma scan_ends_at_brace (l : list regex) pv s i skip (m : match_obj) :
  s = drop i content ->
  In m (scan (cat (l ++ [Lit "{"])) pv s i skip) ->
  ends_at_brace content m.
Proof.
  revert pv i skip. induction s as [|c s' IH]; intros pv i skip Hs H;
    simpl in H; [contradiction|].
  assert (Hs' : s' = drop (S i) content).
  { symmetry. eapply drop_next. symmetry. exact Hs. }
  destruct skip as [|skip]; [|eauto].
  destruct (match_here _ _) as [m0|] eqn:Hm; [|eauto].
  destruct H as [<- | H]; [|eauto].
  eapply match_here_ends_at_brace; [|exact Hm]. exact Hs.
Qed.

Lemma finditer_ends_at_brace (l : list regex) (m : match_obj) :
  In m (finditer (cat (l ++ [Lit "{"])) content) ->
  ends_at_brace content m.
Proof.
  apply scan_ends_at_brace. reflexivity.
Qed.

Lemma slice_mem (c : ascii) (a b p : nat) (s t : string) :
  a <= p -> p < b -> drop p s = String c t ->
  mem_char c (slice a b s) = true.
Proof.
  unfold slice. revert b p s.
  induction a as [|a IH]; intros b p s Ha Hb Hd.
  - rewrite Nat.sub_0_r. simpl. clear Ha. revert b s Hb Hd.
    induction p as [|p IHp]; intros [|b] [|x s] Hb Hd; simpl in *;
      try discriminate; try lia.
    + inversion Hd; subst. now rewrite Ascii.eqb_refl.
    + rewrite (IHp b s); [apply orb_true_r | lia | assumption].
  - destruct p as [|p]; [lia|]. destruct b as [|b]; [lia|].
    destruct s as [|x s]; [discriminate|]. simpl in *.
    apply (IH b p s); [lia | lia | assumption].
Qed.

Lemma lstrip_mem (f : ascii -> bool) (c : ascii) (s : string) :
  f c = false -> mem_char c s = true -> mem_char c (lstrip_by f s) = true.
Proof.
  intros Hf. induction s as [|x s IH]; simpl; [auto|]. intros H.
  destruct (f x) eqn:Hx; [|exact H].
  destruct (Ascii.eqb x c) eqn:Hxc; [|auto].
  apply Ascii.eqb_eq in Hxc. congruence.
Qed.

Lemma rstrip_mem (f : ascii -> bool) (c : ascii) (s : string) :
  f c = false -> mem_char c s = true -> mem_char c (rstrip_by f s) = true.
Proof.
  intros Hf. induction s as [|x s IH]; simpl; [auto|]. intros H.
  destruct (Ascii.eqb x c) eqn:Hxc.
  - apply Ascii.eqb_eq in Hxc. subst x. rewrite Hf.
    destruct (rstrip_by f s); simpl; now rewrite Ascii.eqb_refl.
  - simpl in H. specialize (IH H).
    destruct (rstrip_by f s); [discriminate|].
    simpl in *. now rewrite Hxc.
Qed.

Lemma find_char_at_ge (c : ascii) (s : string) (i b : nat) :
  find_char_at c s i = Some b -> i <= b.
Proof.
  revert i. induction s as [|x s IH]; intros i H; simpl in H;
    [discriminate|].
  destruct (Ascii.eqb x c); [inversion H; lia|].
  apply IH in H. lia.
Qed.

(** The signature [_extract_code_block] returns for a match that ends at
    an opening brace holds that brace. *)
Lemma extract_code_block_keeps_brace (m : match_obj) :
  ends_at_brace content m ->
  mem_char "{"
    (fst (_extract_code_block content (m_start m) (m_end m))) = true.
Proof.
  intros (p & t & Hle & Hend & Hdrop). unfold _extract_code_block.
  rewrite Hend.
  destruct (find_from "{" content (S p)) as [b|] eqn:Hfind; cbn [fst].
  - apply find_char_at_ge in Hfind.
    apply rstrip_mem; [reflexivity|]. apply lstrip_mem; [reflexivity|].
    eapply slice_mem; [exact Hle | | exact Hdrop]. lia.
  - eapply slice_mem; [exact Hle | | exact Hdrop]. lia.
Qed.

End BraceFacts.

(** Every signature the extraction passes store holds an opening brace:
    the three patterns end with the brace, and the brace is looked for
    after the end of the match. *)
Lemma function_signature_has_brace (text path parent : string)
    (e : CodeEntity) :
  In e (_extract_functions text path parent) ->
  mem_char "{" (signature e) = true.
Proof.
  unfold _extract_functions. rewrite in_flat_map. intros (m & Hm & Hin).
  pose proof (extract_code_block_keeps_brace text m) as Hb.
  destruct (_extract_code_block text (m_start m) (m_end m)) as [sg body].
  destruct (startswith "Test" (group1 text m)); [contradiction|].
  destruct Hin as [<- | []]. fields. apply Hb.
  exact (finditer_ends_at_brace text
           [Lit "func"; Star is_space;
            Opt (cat [Lit "("; Star (char_isnt ")"); Lit ")"; Star is_space]);
            Grp (Plus is_word); Star is_space;
            Lit "("; Star (char_isnt ")"); Lit ")"; Star is_space;
            Opt (cat [Lit "("; Star (char_isnt ")"); Lit ")"]);
            Star is_space] m Hm).
Qed.

Lemma type_signature_has_brace (text path parent : string)
    (e : CodeEntity) :
  In e (_extract_types text path parent) ->
  mem_char "{" (signature e) = true.
Proof.
  unfold _extract_types. rewrite in_flat_map.
  intros ([pat ty] & Hpat & Hin).
  rewrite in_map_iff in Hin. destruct Hin as (m & <- & Hm).
  pose proof (extract_code_block_keeps_brace text m) as Hb.
  destruct (_extract_code_block text (m_start m) (m_end m)) as [sg body].
  fields. apply Hb.
  destruct Hpat as [Hp | [Hp | []]]; inversion Hp; subst.
  - exact (finditer_ends_at_brace text
             [Lit "type"; Plus is_space; Grp (Plus is_word); Plus is_space;
              Lit "struct"; Star is_space] m Hm).
  - exact (finditer_ends_at_brace text
             [Lit "type"; Plus is_space; Grp (Plus is_word); Plus is_space;
              Lit "interface"; Star is_space] m Hm).
Qed.

(** ** The parser on the worked examples *)

(** C3, evaluated: on the example of the specification the function pattern
    finds nothing, since it allows a parenthesised result list only, and
    the file yields its file entity alone. *)
Theorem C3_add_example_yields_file_only :
  finditer func_pattern add_source = [] /\
  _parse_file add_file =
    [mkEntity "file:add.go" "file" "add.go" "add.go" 1 add_source
       "Go package" "package main" None None].
Proof.
  split; vm_compute; reflexivity.
Qed.

(** C4, evaluated: the brace is looked for from the end of the match, which
    is past the opening brace of the declaration; the signature of [Run]
    keeps that brace and the body is empty. By
    [function_signature_has_brace] and [type_signature_has_brace] this is so
    for every declaration the parser matches. *)
Theorem C4_signature_keeps_brace :
  _extract_functions run_source "run.go" "file:run.go" =
    [mkEntity "func:run.go:Run:2" "function" "Run" "run.go" 2 ""
       "Function Run" "func Run() {" (Some "file:run.go") None] /\
  contains "{" "func Run() {" = true.
Proof.
  split; vm_compute; reflexivity.
Qed.

(** ** Search: the result records *)

Section ResultFacts.

(** A result is the dictionary of a row fetched from the store. *)
Lemma search_result_row (st : Store) (query : string) (limit : Z)
    (entity_types : option (list string)) (d : dict) :
  In d (search st query limit entity_types) ->
  exists row, In row (entities st) /\ d = result_of_row row.
Proof.
  unfold search. rewrite in_flat_map. intros (idc & _ & Hd).
  destruct (fetchone entity_id (fst idc) (entities st)) as [row|] eqn:Hrow;
    [|contradiction].
  destruct Hd as [<- | []]. exists row. split; [|reflexivity].
  now apply fetchone_key in Hrow.
Qed.

Lemma result_of_row_columns (row : Row) (c : string) :
  In c result_columns -> dict_get c (result_of_row row) = column c row.
Proof.
  unfold result_columns. simpl.
  intros H; repeat (destruct H as [<- | H]; [reflexivity|]); contradiction.
Qed.

End ResultFacts.

(** C5, refuted as stated: the result for the struct [Add] has no
    [parent_entity] key, while the stored row has a parent. *)
Lemma C5_result_lacks_parent_entity :
  ~ (forall d, In d (search adder_store "struct" 10 None) ->
               carries entity_columns adder_store d).
Proof.
  intros H.
  destruct (H (result_of_row adder_struct_row)) as (row & _ & Hc).
  { vm_compute. now left. }
  assert (Hin : In "parent_entity" entity_columns) by (cbv; tauto).
  specialize (Hc "parent_entity" Hin). cbv in Hc. discriminate.
Qed.

(** C5, amended: every result of [search] carries the [entity_id],
    [entity_type], [name], [file_path], [line_number], [content], [summary]
    and [signature] of a row of the store, as stored; it has no
    [parent_entity] and no [embedding] key. *)
Theorem C5_result_fields (st : Store) (query : string) (limit : Z)
    (entity_types : option (list string)) (d : dict) :
  In d (search st query limit entity_types) ->
  carries result_columns st d /\
  dict_get "parent_entity" d = None /\
  dict_get "embedding" d = None.
Proof.
  intros H. apply search_result_row in H as (row & Hin & ->).
  split; [|split; reflexivity].
  exists row. split; [assumption|]. apply result_of_row_columns.
Qed.

Lemma C5_result_fields_witness :
  In (result_of_row adder_struct_row)
     (search adder_store "struct" 10 None) /\
  carries result_columns adder_store (result_of_row adder_struct_row) /\
  dict_get "parent_entity" (result_of_row adder_struct_row) = None /\
  dict_get "embedding" (result_of_row adder_struct_row) = None.
Proof.
  assert (H : In (result_of_row adder_struct_row)
                 (search adder_store "struct" 10 None))
    by (vm_compute; now left).
  split; [exact H|].
  exact (C5_result_fields adder_store "struct" 10 None _ H).
Defined.

(** ** Search: ranking *)

Section SubseqFacts.
Context {A : Type}.

Lemma Subseq_refl (l : list A) : Subseq l l.
Proof. induction l; constructor; assumption. Qed.

Lemma Subseq_nil_l (l : list A) : Subseq [] l.
Proof. induction l; constructor; assumption. Qed.

Lemma Subseq_trans (l1 l2 l3 : list A) :
  Subseq l1 l2 -> Subseq l2 l3 -> Subseq l1 l3.
Proof.
  intros H12 H23. revert l1 H12.
  induction H23 as [|x l2 l3 _ IH|x l2 l3 _ IH]; intros l1 H12.
  - assumption.
  - constructor. now apply IH.
  - inversion H12; subst.
    + constructor. now apply IH.
    + apply Subseq_keep. now apply IH.
Qed.

Lemma Subseq_firstn (n : nat) (l : list A) : Subseq (firstn n l) l.
Proof.
  revert n; induction l as [|x l IH]; intros [|n]; simpl;
    auto using Subseq_nil_l, Subseq_nil.
  now apply Subseq_keep.
Qed.

Lemma Subseq_filter (p : A -> bool) (l1 l2 : list A) :
  Subseq l1 l2 -> Subseq (filter p l1) (filter p l2).
Proof.
  induction 1 as [|x l1 l2 _ IH|x l1 l2 _ IH]; simpl.
  - constructor.
  - destruct (p x); [now constructor | assumption].
  - destruct (p x); [now apply Subseq_keep | assumption].
Qed.

Lemma Subseq_filter_self (p : A -> bool) (l : list A) :
  Subseq (filter p l) l.
Proof.
  induction l as [|x l IH]; simpl; [constructor|].
  destruct (p x); [now apply Subseq_keep | now constructor].
Qed.

Lemma Subseq_map {B} (f : A -> B) (l1 l2 : list A) :
  Subseq l1 l2 -> Subseq (map f l1) (map f l2).
Proof.
  induction 1; simpl; constructor; assumption.
Qed.

Lemma Subseq_Forall (P : A -> Prop) (l1 l2 : list A) :
  Subseq l1 l2 -> Forall P l2 -> Forall P l1.
Proof.
  induction 1 as [|x l1 l2 _ IH|x l1 l2 _ IH]; intros H; auto;
    inversion H; subst; auto.
Qed.

Lemma Subseq_sorted (R : A -> A -> Prop) (l1 l2 : list A) :
  Subseq l1 l2 -> StronglySorted R l2 -> StronglySorted R l1.
Proof.
  induction 1 as [|x l1 l2 Hs IH|x l1 l2 Hs IH]; intros H; auto;
    inversion H; subst; auto.
  constructor; [auto|]. eapply Subseq_Forall; eassumption.
Qed.

Lemma Subseq_length (l1 l2 : list A) :
  Subseq l1 l2 -> length l1 <= length l2.
Proof.
  induction 1; simpl; lia.
Qed.

End SubseqFacts.

Section SortFacts.

Lemma insert_desc_Forall (P : string * nat -> Prop) x l :
  P x -> Forall P l -> Forall P (insert_desc x l).
Proof.
  intros Hx. induction 1 as [|y l Hy Hl IH]; simpl.
  - now repeat constructor.
  - destruct (snd y <=? snd x); repeat constructor; assumption.
Qed.

Lemma insert_desc_sorted x l :
  StronglySorted by_count_desc l ->
  StronglySorted by_count_desc (insert_desc x l).
Proof.
  induction 1 as [|y l Hs IH Hy]; simpl.
  - repeat constructor.
  - destruct (snd y <=? snd x) eqn:Hle.
    + apply Nat.leb_le in Hle.
      constructor; [now constructor|].
      constructor; [exact Hle|].
      eapply Forall_impl; [|exact Hy].
      unfold by_count_desc. intros z Hz. lia.
    + apply Nat.leb_gt in Hle.
      constructor; [assumption|].
      apply insert_desc_Forall; [|assumption].
      unfold by_count_desc. lia.
Qed.

(** Stability: inserting keeps the order among the entries of one count. *)
Lemma insert_desc_filter (c : nat) x l :
  filter (fun p => snd p =? c) (insert_desc x l)
  = filter (fun p => snd p =? c) (x :: l).
Proof.
  induction l as [|y l IH]; [reflexivity|].
  cbn [insert_desc]. destruct (snd y <=? snd x) eqn:Hle; [reflexivity|].
  apply Nat.leb_gt in Hle.
  cbn [filter] in *. rewrite IH.
  destruct (snd y =? c) eqn:Hy; [|reflexivity].
  apply Nat.eqb_eq in Hy.
  assert (Hx : (snd x =? c) = false) by (apply Nat.eqb_neq; lia).
  now rewrite Hx.
Qed.

Lemma sort_desc_sorted l : StronglySorted by_count_desc (sort_desc l).
Proof.
  induction l as [|x l IH]; simpl; [constructor|].
  now apply insert_desc_sorted.
Qed.

Lemma sort_desc_stable (c : nat) l :
  filter (fun p => snd p =? c) (sort_desc l)
  = filter (fun p => snd p =? c) l.
Proof.
  induction l as [|x l IH]; [reflexivity|].
  cbn [sort_desc fold_right]. fold (sort_desc l).
  rewrite insert_desc_filter. cbn [filter]. now rewrite IH.
Qed.

Lemma sort_desc_Forall (P : string * nat -> Prop) l :
  Forall P l -> Forall P (sort_desc l).
Proof.
  induction 1; simpl; [constructor|]. now apply insert_desc_Forall.
Qed.

End SortFacts.

Section KeyScanFacts.

Lemma leb_trans (a b c : string) :
  String.leb a b = true -> String.leb b c = true -> String.leb a c = true.
Proof.
  unfold String.leb. revert b c.
  induction a as [|x a IH]; intros [|y b] [|z c]; simpl; try congruence.
  unfold Ascii.compare.
  destruct (N.compare_spec (N_of_ascii x) (N_of_ascii y)) as [Hxy|Hxy|Hxy];
    destruct (N.compare_spec (N_of_ascii y) (N_of_ascii z)) as [Hyz|Hyz|Hyz];
    destruct (N.compare_spec (N_of_ascii x) (N_of_ascii z)) as [Hxz|Hxz|Hxz];
    try congruence; try lia.
  apply IH.
Qed.

Lemma insert_key_perm (r : string * string) (l : list (string * string)) :
  Permutation (insert_key r l) (r :: l).
Proof.
  induction l as [|y l IH]; cbn [insert_key]; [reflexivity|].
  destruct (String.leb (fst r) (fst y)); [reflexivity|].
  rewrite IH. apply perm_swap.
Qed.

Lemma key_scan_perm (l : list (string * string)) :
  Permutation (key_scan l) l.
Proof.
  induction l as [|r l IH]; [reflexivity|].
  cbn [key_scan fold_right]. fold (key_scan l).
  rewrite insert_key_perm. now constructor.
Qed.

Lemma key_scan_In (r : string * string) (l : list (string * string)) :
  In r (key_scan l) <-> In r l.
Proof.
  split; apply Permutation_in;
    [apply key_scan_perm | symmetry; apply key_scan_perm].
Qed.

Lemma key_scan_length (l : list (string * string)) :
  length (key_scan l) = length l.
Proof. apply Permutation_length, key_scan_perm. Qed.

Lemma key_scan_NoDup (l : list (string * string)) :
  NoDup (map fst l) -> NoDup (map fst (key_scan l)).
Proof.
  apply Permutation_NoDup, Permutation_map. symmetry. apply key_scan_perm.
Qed.

Lemma insert_key_sorted (r : string * string) (l : list (string * string)) :
  StronglySorted ascending (map fst l) ->
  StronglySorted ascending (map fst (insert_key r l)).
Proof.
  induction l as [|y l IH]; cbn [insert_key map]; intros H.
  - repeat constructor.
  - inversion H as [|? ? Hs Hy]; subst.
    destruct (String.leb (fst r) (fst y)) eqn:Hle; cbn [map].
    + constructor; [exact H|]. constructor; [exact Hle|].
      eapply Forall_impl; [|exact Hy].
      intros z Hz. now apply (leb_trans _ (fst y)).
    + constructor; [now apply IH|].
      assert (Hyr : ascending (fst y) (fst r)).
      { destruct (String.leb_total (fst r) (fst y)) as [E | E];
          [congruence | exact E]. }
      apply Forall_forall. intros k Hk.
      apply in_map_iff in Hk as (z & <- & Hz).
      apply (Permutation_in _ (insert_key_perm r l)) in Hz as [<- | Hz];
        [exact Hyr|].
      rewrite Forall_forall in Hy. apply Hy. now apply in_map.
Qed.

(** The scan gives the keys in ascending order. *)
Lemma key_scan_sorted (l : list (string * string)) :
  StronglySorted ascending (map fst (key_scan l)).
Proof.
  induction l as [|r l IH]; [constructor|].
  cbn [key_scan fold_right]. fold (key_scan l).
  now apply insert_key_sorted.
Qed.

End KeyScanFacts.

Section RankingFacts.
Variables (st : Store) (query : string).

(** The pairs of [matching_ids] follow the scan of the keys of
    [search_index]. *)
Lemma matching_ids_scan_order (keywords : list string) :
  Subseq (map fst (matching_ids st keywords))
         (map fst (key_scan (search_index st))).
Proof.
  unfold matching_ids.
  set (tbl := search_index st) at 1. generalize (key_scan (search_index st)) as l.
  induction l as [|row l IH]; simpl; [constructor|].
  rewrite map_app.
  destruct (fetchone fst (fst row) tbl) as [kw|].
  - destruct (0 <? match_count keywords (lower (snd kw))); simpl.
    + now apply Subseq_keep.
    + now constructor.
  - now constructor.
Qed.

(** Each pair holds the score of its entity. *)
Lemma matching_ids_score :
  Forall (fun p => snd p = score st query (fst p))
         (matching_ids st (split_ws (lower query))).
Proof.
  apply Forall_forall. intros p. unfold matching_ids. rewrite in_flat_map.
  intros (row & _ & Hp). unfold score.
  destruct (fetchone fst (fst row) (search_index st)) as [kw|] eqn:Hkw;
    [|contradiction].
  destruct (0 <? _); [|contradiction].
  destruct Hp as [<- | []]. simpl. now rewrite Hkw.
Qed.

Lemma search_ids (limit : Z) (entity_types : option (list string)) :
  map result_id (search st query limit entity_types)
  = map fst (found_pairs st query limit).
Proof.
  unfold search, found_pairs.
  induction (slice_to limit _) as [|idc l IH]; simpl; [reflexivity|].
  destruct (fetchone entity_id (fst idc) (entities st)) as [row|] eqn:Hrow;
    [|exact IH].
  simpl. rewrite IH. f_equal.
  apply fetchone_key in Hrow as [_ Hk]. exact Hk.
Qed.

Lemma slice_to_Subseq {A} (k : Z) (l : list A) : Subseq (slice_to k l) l.
Proof.
  unfold slice_to. destruct (0 <=? k)%Z; apply Subseq_firstn.
Qed.

Lemma found_pairs_Subseq (limit : Z) :
  Subseq (found_pairs st query limit)
         (sort_desc (matching_ids st (split_ws (lower query)))).
Proof.
  unfold found_pairs.
  eapply Subseq_trans; [apply Subseq_filter_self | apply slice_to_Subseq].
Qed.

Lemma found_pairs_score (limit : Z) :
  Forall (fun p => snd p = score st query (fst p)) (found_pairs st query limit).
Proof.
  eapply Subseq_Forall; [apply found_pairs_Subseq|].
  apply sort_desc_Forall, matching_ids_score.
Qed.

Lemma found_pairs_length (limit : Z) :
  (0 <= limit)%Z -> (Z.of_nat (length (found_pairs st query limit)) <= limit)%Z.
Proof.
  intros Hl. unfold found_pairs.
  pose proof (Subseq_length _ _
    (Subseq_filter_self
       (fun idc => match fetchone entity_id (fst idc) (entities st) with
                   | Some _ => true | None => false end)
       (slice_to limit
          (sort_desc (matching_ids st (split_ws (lower query))))))) as H.
  unfold slice_to in *.
  destruct (0 <=? limit)%Z eqn:Hk; [|apply Z.leb_gt in Hk; lia].
  pose proof (firstn_le_length (Z.to_nat limit)
    (sort_desc (matching_ids st (split_ws (lower query))))) as H'.
  lia.
Qed.

(** Sortedness by the stored count is sortedness by score. *)
Lemma sorted_by_score (l : list (string * nat)) :
  Forall (fun p => snd p = score st query (fst p)) l ->
  StronglySorted by_count_desc l ->
  StronglySorted (fun a b => score st query b <= score st query a)
                 (map fst l).
Proof.
  intros Hsc Hs. induction Hs as [|p l Hs IH Hp]; simpl; [constructor|].
  inversion Hsc as [|? ? Hp0 Hl]; subst.
  constructor; [now apply IH|].
  apply Forall_map. rewrite Forall_forall in *.
  intros z Hz. specialize (Hp z Hz). specialize (Hl z Hz).
  unfold by_count_desc in Hp. lia.
Qed.

Lemma filter_score_map (c : nat) (l : list (string * nat)) :
  Forall (fun p => snd p = score st query (fst p)) l ->
  filter (fun eid => score st query eid =? c) (map fst l)
  = map fst (filter (fun p => snd p =? c) l).
Proof.
  induction 1 as [|p l Hp _ IH]; simpl; [reflexivity|].
  rewrite <- Hp, IH. now destruct (snd p =? c).
Qed.

End RankingFacts.

(** C7, refuted as stated: the struct [Add] is indexed before the
    interface [Adder], both match [add] once, and the search returns the
    interface first: the two come in the order of their identifiers, not
    in the order of insertion. *)
Lemma C7_ties_not_in_insertion_order :
  map fst (search_index tie_store)
    = ["file:calc/sum.go"; "struct:calc/sum.go:Add:2";
       "interface:calc/sum.go:Adder:3"] /\
  map result_id (search tie_store "add" 10 None)
    = ["interface:calc/sum.go:Adder:3"; "struct:calc/sum.go:Add:2"] /\
  score tie_store "add" "interface:calc/sum.go:Adder:3" = 1 /\
  score tie_store "add" "struct:calc/sum.go:Add:2" = 1 /\
  ~ Subseq (filter (fun eid => score tie_store "add" eid =? 1)
              (map result_id (search tie_store "add" 10 None)))
           (map fst (search_index tie_store)).
Proof.
  assert (E1 : map fst (search_index tie_store)
               = ["file:calc/sum.go"; "struct:calc/sum.go:Add:2";
                  "interface:calc/sum.go:Adder:3"])
    by (vm_compute; reflexivity).
  assert (E2 : filter (fun eid => score tie_store "add" eid =? 1)
                 (map result_id (search tie_store "add" 10 None))
               = ["interface:calc/sum.go:Adder:3";
                  "struct:calc/sum.go:Add:2"])
    by (vm_compute; reflexivity).
  split; [exact E1|]. split; [vm_compute; reflexivity|].
  split; [vm_compute; reflexivity|]. split; [vm_compute; reflexivity|].
  rewrite E1, E2. intros H.
  repeat match goal with
         | Hs : Subseq _ _ |- _ => inversion Hs; clear Hs; subst
         end.
Qed.

(** C7, amended: for every query and every limit, the result list has at
    most [limit] elements, its match counts do not increase along the
    list, and the entities of one match count appear in ascending order of
    their [entity_id], the order in which the keys of [search_index] are
    scanned. *)
Theorem C7_ranked_results (st : Store) (query : string) (limit : nat)
    (entity_types : option (list string)) :
  length (search st query (Z.of_nat limit) entity_types) <= limit /\
  StronglySorted (fun a b => score st query b <= score st query a)
    (map result_id (search st query (Z.of_nat limit) entity_types)) /\
  forall c,
    StronglySorted ascending
      (filter (fun eid => score st query eid =? c)
         (map result_id (search st query (Z.of_nat limit) entity_types))).
Proof.
  pose proof (search_ids st query (Z.of_nat limit) entity_types) as Hids.
  split; [|split].
  - rewrite <- (length_map result_id), Hids, length_map.
    pose proof (found_pairs_length st query (Z.of_nat limit)). lia.
  - rewrite Hids. apply sorted_by_score; [apply found_pairs_score|].
    eapply Subseq_sorted; [apply found_pairs_Subseq | apply sort_desc_sorted].
  - intros c. rewrite Hids, filter_score_map by apply found_pairs_score.
    eapply Subseq_sorted; [|apply (key_scan_sorted (search_index st))].
    eapply Subseq_trans; [|apply matching_ids_scan_order].
    apply Subseq_map.
    eapply Subseq_trans.
    + apply Subseq_filter, found_pairs_Subseq.
    + rewrite sort_desc_stable. apply Subseq_filter_self.
Qed.

(** The struct matches both tokens and the file one of them: the struct
    comes first; with equal counts the file comes first, its identifier
    being the smaller one. *)
Example ranking_example :
  map result_id (search adder_store "struct add" 10 None)
    = ["struct:calc/add.go:Add:2"; "file:calc/add.go"] /\
  map result_id (search adder_store "add" 10 None)
    = ["file:calc/add.go"; "struct:calc/add.go:Add:2"].
Proof.
  split; vm_compute; reflexivity.
Qed.

(** ** The primitives on sample inputs *)

Example split_ws_example :
  split_ws "  Foo  bar baz " = ["Foo"; "bar"; "baz"] /\ split_ws "   " = [].
Proof. split; reflexivity. Qed.

Example split_on_example : split_on "/" "a//b/" = ["a"; ""; "b"; ""].
Proof. reflexivity. Qed.

Example strip_example :
  strip "  // x y  " = "// x y" /\ strip_chars "//" "// x y/" = " x y".
Proof. split; reflexivity. Qed.

Example slice_to_example :
  slice_to 2 [1; 2; 3] = [1; 2] /\ slice_to (-1) [1; 2; 3] = [1; 2] /\
  slice_to 0 [1; 2; 3] = [] /\ slice_to (-5) [1; 2; 3] = [].
Proof. repeat split; reflexivity. Qed.

Example findall_example :
  findall word_pattern "add.go foo_bar-baz" = ["add"; "go"; "foo_bar"; "baz"].
Proof. vm_compute; reflexivity. Qed.

Example create_keywords_example :
  _create_keywords adder_struct_row = "add struct struct add calc add.go".
Proof. vm_compute; reflexivity. Qed.

(** A method with a receiver and a parenthesised result list is matched;
    its signature runs on to the next brace and its body is the inner
    block. *)
Example method_example :
  _extract_functions
    "func (r *T) Add(a, b int) (int, error) { if ok { return a + b } }"
    "m.go" "file:m.go"
  = [mkEntity "func:m.go:Add:1" "function" "Add" "m.go" 1
       "{ return a + b }" "Function Add"
       "func (r *T) Add(a, b int) (int, error) { if ok"
       (Some "file:m.go") None].
Proof. vm_compute; reflexivity. Qed.

(** * Further properties of the code *)

(** ** Upserts and lookups *)

Section UpsertFacts.
Context {A : Type} (key : A -> string).

(** Lookup after one upsert: the new row under its own key, the old
    answer under any other. *)
Lemma fetchone_replace_into (k : string) (row : A) (tbl : list A) :
  fetchone key k (replace_into key row tbl)
  = if String.eqb (key row) k then Some row else fetchone key k tbl.
Proof.
  unfold fetchone, replace_into.
  destruct (String.eqb (key row) k) eqn:Hk.
  - apply String.eqb_eq in Hk. subst k.
    induction tbl as [|r tbl IH]; simpl.
    + now rewrite String.eqb_refl.
    + destruct (String.eqb (key r) (key row)) eqn:Hr; simpl; [exact IH|].
      now rewrite Hr.
  - induction tbl as [|r tbl IH]; simpl.
    + now rewrite Hk.
    + destruct (String.eqb (key r) (key row)) eqn:Hr; simpl.
      * apply String.eqb_eq in Hr. rewrite Hr, Hk. exact IH.
      * destruct (String.eqb (key r) k); [reflexivity | exact IH].
Qed.

Lemma upsert_all_app (rs1 rs2 tbl : list A) :
  upsert_all key (rs1 ++ rs2) tbl = upsert_all key rs2 (upsert_all key rs1 tbl).
Proof. apply fold_left_app. Qed.

Lemma fetchone_upsert_other (k : string) (rows tbl : list A) :
  (forall r, In r rows -> key r <> k) ->
  fetchone key k (upsert_all key rows tbl) = fetchone key k tbl.
Proof.
  revert tbl. induction rows as [|r rows IH]; intros tbl H; [reflexivity|].
  simpl. rewrite IH by (intros r' Hr'; apply H; now right).
  rewrite fetchone_replace_into.
  destruct (String.eqb (key r) k) eqn:Hk; [|reflexivity].
  apply String.eqb_eq in Hk. exfalso. apply (H r); [now left | exact Hk].
Qed.

Lemma fetchone_upsert_last (rs1 rs2 tbl : list A) (r : A) :
  (forall r', In r' rs2 -> key r' <> key r) ->
  fetchone key (key r) (upsert_all key (rs1 ++ r :: rs2) tbl) = Some r.
Proof.
  intros H. rewrite upsert_all_app. simpl.
  change (fetchone key (key r)
            (upsert_all key rs2
               (replace_into key r (upsert_all key rs1 tbl))) = Some r).
  rewrite fetchone_upsert_other by exact H.
  rewrite fetchone_replace_into. now rewrite String.eqb_refl.
Qed.

(** The keys of a table after an upsert. *)
Lemma map_key_replace_into (row : A) (tbl : list A) :
  map key (replace_into key row tbl)
  = filter (fun k => negb (String.eqb k (key row))) (map key tbl)
      ++ [key row].
Proof.
  unfold replace_into. rewrite map_app. f_equal.
  induction tbl as [|r tbl IH]; simpl; [reflexivity|].
  destruct (String.eqb (key r) (key row)); simpl; now rewrite IH.
Qed.

Lemma NoDup_replace_into (row : A) (tbl : list A) :
  NoDup (map key tbl) -> NoDup (map key (replace_into key row tbl)).
Proof.
  intros H. rewrite map_key_replace_into.
  apply NoDup_app.
  - now apply NoDup_filter.
  - repeat constructor. intros [].
  - intros k Hk [<- | []]. apply filter_In in Hk as [_ Hk].
    now rewrite String.eqb_refl in Hk.
Qed.

Lemma filter_all {B} (p : B -> bool) (l : list B) :
  (forall x, In x l -> p x = true) -> filter p l = l.
Proof.
  induction l as [|x l IH]; intros H; simpl; [reflexivity|].
  rewrite (H x (or_introl eq_refl)), IH; [reflexivity|].
  intros y Hy. apply H. now right.
Qed.

Lemma filter_none {B} (p : B -> bool) (l : list B) :
  (forall x, In x l -> p x = false) -> filter p l = [].
Proof.
  induction l as [|x l IH]; intros H; simpl; [reflexivity|].
  rewrite (H x (or_introl eq_refl)). apply IH.
  intros y Hy. apply H. now right.
Qed.

Lemma filter_filter {B} (p q : B -> bool) (l : list B) :
  filter p (filter q l) = filter (fun x => q x && p x) l.
Proof.
  induction l as [|x l IH]; simpl; [reflexivity|].
  destruct (q x); simpl; [destruct (p x)|]; now rewrite IH.
Qed.

(** A table after a batch of upserts: its rows that the batch does not
    touch, then what the batch leaves in an empty table. *)
Lemma upsert_all_split (rows tbl : list A) :
  upsert_all key rows tbl
  = filter (untouched key rows) tbl ++ upsert_all key rows [].
Proof.
  induction rows as [|r rows IH] using rev_ind.
  - simpl. rewrite app_nil_r. symmetry. now apply filter_all.
  - rewrite !upsert_all_app. simpl. rewrite IH. unfold replace_into.
    rewrite filter_app, filter_filter, <- app_assoc. f_equal.
    apply filter_ext. intros x. unfold untouched.
    rewrite existsb_app. simpl. rewrite orb_false_r.
    now rewrite negb_orb.
Qed.

Lemma upsert_all_keys (rows : list A) (r : A) :
  In r (upsert_all key rows []) -> untouched key rows r = false.
Proof.
  unfold untouched. intros H. apply negb_false_iff, existsb_exists.
  revert H. induction rows as [|r0 rows IH] using rev_ind; [intros []|].
  rewrite upsert_all_app. simpl. intros H.
  apply in_replace_into in H as [-> | H].
  - exists r0. split; [apply in_app_iff; right; now left|].
    apply String.eqb_refl.
  - destruct (IH H) as (r' & Hr' & Hk). exists r'. split; [|exact Hk].
    apply in_app_iff. now left.
Qed.

Lemma upsert_all_idem (rows tbl : list A) :
  upsert_all key rows (upsert_all key rows tbl) = upsert_all key rows tbl.
Proof.
  rewrite (upsert_all_split rows (upsert_all key rows tbl)).
  rewrite (upsert_all_split rows tbl) at 1.
  rewrite filter_app, filter_filter.
  rewrite (filter_none _ (upsert_all key rows []))
    by (intros x Hx; now apply upsert_all_keys).
  rewrite app_nil_r.
  rewrite (upsert_all_split rows tbl). f_equal.
  apply filter_ext. intros x. now rewrite andb_diag.
Qed.

End UpsertFacts.

(** ** The store after indexing *)

Section StoreFacts.
Variable generate : CodeEntity -> option (list double).

(** Indexing is a batch of upserts into each table. *)
Lemma index_entities_tables (es : list CodeEntity) (st : Store) :
  entities (index_entities generate es st)
    = upsert_all entity_id (map (entity_row generate) es) (entities st) /\
  search_index (index_entities generate es st)
    = upsert_all fst (map keyword_row es) (search_index st).
Proof.
  unfold index_entities. revert st.
  induction es as [|e es IH]; intros st; [now split|].
  simpl. destruct (IH (index_entity generate st e)) as [-> ->].
  now split.
Qed.

Lemma entity_row_id (e : CodeEntity) :
  entity_id (entity_row generate e) = entity_id e.
Proof. reflexivity. Qed.

End StoreFacts.

Lemma index_lookup_last (generate : CodeEntity -> option (list double))
    (es1 es2 : list CodeEntity) (e : CodeEntity) (st : Store) :
  (forall e', In e' es2 -> entity_id e' <> entity_id e) ->
  fetchone entity_id (entity_id e)
    (entities (index_entities generate (es1 ++ e :: es2) st))
    = Some (entity_row generate e) /\
  fetchone fst (entity_id e)
    (search_index (index_entities generate (es1 ++ e :: es2) st))
    = Some (keyword_row e).
Proof.
  intros H.
  destruct (index_entities_tables generate (es1 ++ e :: es2) st) as [-> ->].
  rewrite !map_app. cbn [map]. split.
  - apply (fetchone_upsert_last entity_id _ _ _ (entity_row generate e)).
    intros r Hr. apply in_map_iff in Hr as (e' & <- & He').
    rewrite !entity_row_id. now apply H.
  - apply (fetchone_upsert_last fst _ _ _ (keyword_row e)).
    intros r Hr. apply in_map_iff in Hr as (e' & <- & He').
    cbn [keyword_row fst]. now apply H.
Qed.

(** X1: of the entities indexed under one identifier the last one wins:
    afterwards a lookup of the identifier gives its row in [entities] and
    its keyword string in [search_index], whatever the store held. *)
Theorem index_last_wins (generate : CodeEntity -> option (list double))
    (es1 es2 : list CodeEntity) (e : CodeEntity) (st : Store) :
  (forall e', In e' es2 -> entity_id e' <> entity_id e) ->
  fetchone entity_id (entity_id e)
    (entities (index_entities generate (es1 ++ e :: es2) st))
    = Some (entity_row generate e) /\
  fetchone fst (entity_id e)
    (search_index (index_entities generate (es1 ++ e :: es2) st))
    = Some (keyword_row e).
Proof.
  intros H. now apply index_lookup_last.
Qed.

Lemma index_last_wins_witness :
  (forall e', In e' [] -> entity_id e' <> entity_id adder_struct_row) /\
  fetchone entity_id (entity_id adder_struct_row)
    (entities (index_entities (fun _ => None)
                 ([adder_struct_row] ++ adder_struct_row :: []) empty_store))
    = Some (entity_row (fun _ => None) adder_struct_row) /\
  fetchone fst (entity_id adder_struct_row)
    (search_index (index_entities (fun _ => None)
                 ([adder_struct_row] ++ adder_struct_row :: []) empty_store))
    = Some (keyword_row adder_struct_row).
Proof.
  assert (H : forall e', In e' [] ->
                entity_id e' <> entity_id adder_struct_row)
    by (intros e' []).
  split; [exact H|].
  exact (index_last_wins (fun _ => None) [adder_struct_row] []
           adder_struct_row empty_store H).
Defined.

(** X2: indexing never touches what is stored under an identifier that no
    indexed entity has: the lookup in either table gives what it gave
    before, so rows of files that no longer exist stay in the store. *)
Theorem index_keeps_other_rows (generate : CodeEntity -> option (list double))
    (es : list CodeEntity) (st : Store) (k : string) :
  (forall e, In e es -> entity_id e <> k) ->
  fetchone entity_id k (entities (index_entities generate es st))
    = fetchone entity_id k (entities st) /\
  fetchone fst k (search_index (index_entities generate es st))
    = fetchone fst k (search_index st).
Proof.
  intros H.
  destruct (index_entities_tables generate es st) as [-> ->].
  split; apply fetchone_upsert_other;
    intros r Hr; apply in_map_iff in Hr as (e & <- & He); exact (H e He).
Qed.

Lemma index_keeps_other_rows_witness :
  (forall e, In e [adder_struct_row] ->
             entity_id e <> "file:calc/add.go") /\
  fetchone entity_id "file:calc/add.go"
    (entities (index_entities (fun _ => None) [adder_struct_row] adder_store))
    = fetchone entity_id "file:calc/add.go" (entities adder_store) /\
  fetchone fst "file:calc/add.go"
    (search_index
       (index_entities (fun _ => None) [adder_struct_row] adder_store))
    = fetchone fst "file:calc/add.go" (search_index adder_store).
Proof.
  assert (H : forall e, In e [adder_struct_row] ->
                entity_id e <> "file:calc/add.go")
    by (intros e [<- | []]; vm_compute; discriminate).
  split; [exact H|].
  exact (index_keeps_other_rows (fun _ => None) [adder_struct_row]
           adder_store "file:calc/add.go" H).
Defined.

(** X3: indexing keeps identifiers unique: when no two rows of [entities]
    share an [entity_id] before, none do after, however many of the indexed
    entities share one. *)
Theorem index_keeps_keys_unique
    (generate : CodeEntity -> option (list double))
    (es : list CodeEntity) (st : Store) :
  keys_unique st -> keys_unique (index_entities generate es st).
Proof.
  unfold keys_unique, index_entities. revert st.
  induction es as [|e es IH]; intros st H; [exact H|].
  simpl. apply IH. cbn [index_entity entities].
  now apply NoDup_replace_into.
Qed.

Lemma index_keeps_keys_unique_witness :
  keys_unique empty_store /\
  keys_unique (index_entities (fun _ => None)
                 [adder_struct_row; adder_struct_row] empty_store).
Proof.
  assert (H : keys_unique empty_store) by constructor.
  split; [exact H|].
  exact (index_keeps_keys_unique (fun _ => None)
           [adder_struct_row; adder_struct_row] empty_store H).
Defined.

Lemma index_in_step (generate : CodeEntity -> option (list double))
    (es : list CodeEntity) (st : Store) :
  keys_in_step st -> keys_in_step (index_entities generate es st).
Proof.
  unfold keys_in_step, index_entities. revert st.
  induction es as [|e es IH]; intros st H; [exact H|].
  simpl. apply IH. cbn [index_entity entities search_index].
  rewrite (map_key_replace_into entity_id), (map_key_replace_into fst).
  cbn [fst entity_row entity_id]. now rewrite H.
Qed.

(** X4: indexing keeps the two tables in step: when [entities] and
    [search_index] hold the same identifiers row for row before, they do
    after, so every entity has its keyword row and every keyword row its
    entity. *)
Theorem index_keeps_keys_in_step
    (generate : CodeEntity -> option (list double))
    (es : list CodeEntity) (st : Store) :
  keys_in_step st -> keys_in_step (index_entities generate es st).
Proof.
  apply index_in_step.
Qed.

Lemma index_keeps_keys_in_step_witness :
  keys_in_step empty_store /\
  keys_in_step (index_entities (fun _ => None)
                  [adder_struct_row; adder_struct_row] empty_store).
Proof.
  assert (H : keys_in_step empty_store) by reflexivity.
  split; [exact H|].
  exact (index_keeps_keys_in_step (fun _ => None)
           [adder_struct_row; adder_struct_row] empty_store H).
Defined.

(** X5: indexing the same entities a second time changes nothing: the
    store after the second pass is the store after the first, rows and
    their order included. *)
Theorem index_entities_idempotent
    (generate : CodeEntity -> option (list double))
    (es : list CodeEntity) (st : Store) :
  index_entities generate es (index_entities generate es st)
  = index_entities generate es st.
Proof.
  destruct (index_entities_tables generate es
              (index_entities generate es st)) as [He Hs].
  destruct (index_entities_tables generate es st) as [He' Hs'].
  rewrite He', upsert_all_idem, <- He' in He.
  rewrite Hs', upsert_all_idem, <- Hs' in Hs.
  destruct (index_entities generate es (index_entities generate es st)).
  destruct (index_entities generate es st).
  simpl in *. now subst.
Qed.

(** ** What a search returns *)

Section SearchFacts.

Lemma insert_desc_In (x y : string * nat) (l : list (string * nat)) :
  In y (insert_desc x l) <-> y = x \/ In y l.
Proof.
  induction l as [|z l IH]; simpl.
  - intuition.
  - destruct (snd z <=? snd x); simpl; [intuition|].
    rewrite IH. intuition.
Qed.

Lemma sort_desc_In (y : string * nat) (l : list (string * nat)) :
  In y (sort_desc l) <-> In y l.
Proof.
  induction l as [|x l IH]; simpl; [reflexivity|].
  rewrite insert_desc_In, IH. intuition.
Qed.

Lemma insert_desc_length (x : string * nat) (l : list (string * nat)) :
  length (insert_desc x l) = S (length l).
Proof.
  induction l as [|z l IH]; simpl; [reflexivity|].
  destruct (snd z <=? snd x); simpl; [reflexivity | now rewrite IH].
Qed.

Lemma sort_desc_length (l : list (string * nat)) :
  length (sort_desc l) = length l.
Proof.
  induction l as [|x l IH]; simpl; [reflexivity|].
  now rewrite insert_desc_length, IH.
Qed.

(** The pairs of [matching_ids]: the keys of [search_index] with a
    positive score, each with its score. *)
Lemma matching_ids_In (st : Store) (query : string) (eid : string) (mc : nat) :
  In (eid, mc) (matching_ids st (split_ws (lower query))) <->
  In eid (map fst (search_index st)) /\ mc = score st query eid /\ 1 <= mc.
Proof.
  unfold matching_ids, score. rewrite in_flat_map, in_map_iff. split.
  - intros (row & Hrow & H). apply (proj1 (key_scan_In _ _)) in Hrow.
    destruct (fetchone fst (fst row) (search_index st)) as [kw|] eqn:Hkw;
      [|contradiction].
    destruct (0 <? _) eqn:Hpos; [|contradiction].
    destruct H as [H | []]. inversion H; subst eid mc. clear H.
    rewrite Hkw. apply Nat.ltb_lt in Hpos.
    split; [now exists row | split; [reflexivity | lia]].
  - intros ((row & <- & Hrow) & -> & Hpos). exists row.
    split; [exact (proj2 (key_scan_In _ _) Hrow)|].
    destruct (fetchone fst (fst row) (search_index st)) as [kw|]; [|lia].
    destruct (0 <? _) eqn:Hlt; [now left|].
    apply Nat.ltb_ge in Hlt. lia.
Qed.

Lemma Subseq_In {A} (l1 l2 : list A) (x : A) :
  Subseq l1 l2 -> In x l1 -> In x l2.
Proof.
  induction 1 as [|y l1 l2 _ IH|y l1 l2 _ IH]; simpl; intuition.
Qed.

Lemma found_pairs_In (st : Store) (query : string) (limit : Z)
    (p : string * nat) :
  In p (found_pairs st query limit) ->
  In p (matching_ids st (split_ws (lower query))) /\
  exists row, fetchone entity_id (fst p) (entities st) = Some row.
Proof.
  unfold found_pairs. rewrite filter_In. intros [Hin Hf]. split.
  - apply sort_desc_In. eapply Subseq_In; [apply slice_to_Subseq | exact Hin].
  - destruct (fetchone entity_id (fst p) (entities st)) as [row|];
      [now exists row | discriminate].
Qed.

Lemma fetchone_some {A} (key : A -> string) (k : string) (tbl : list A) :
  In k (map key tbl) -> exists r, fetchone key k tbl = Some r.
Proof.
  unfold fetchone. induction tbl as [|r tbl IH]; simpl; [intros []|].
  intros [<- | H].
  - rewrite String.eqb_refl. now exists r.
  - destruct (String.eqb (key r) k); [now exists r | auto].
Qed.

Lemma slice_to_all {A} (k : Z) (l : list A) :
  (Z.of_nat (length l) <= k)%Z -> slice_to k l = l.
Proof.
  intros H. unfold slice_to.
  destruct (0 <=? k)%Z eqn:Hk; [|apply Z.leb_gt in Hk; lia].
  apply firstn_all2. lia.
Qed.

Lemma slice_to_prefix {A} (n m : Z) (l : list A) :
  (0 <= n <= m)%Z -> exists rest, slice_to m l = slice_to n l ++ rest.
Proof.
  intros [Hn Hm]. unfold slice_to.
  destruct (0 <=? n)%Z eqn:En; [|apply Z.leb_gt in En; lia].
  destruct (0 <=? m)%Z eqn:Em; [|apply Z.leb_gt in Em; lia].
  exists (skipn (Z.to_nat n) (firstn (Z.to_nat m) l)).
  rewrite <- (firstn_skipn (Z.to_nat n) (firstn (Z.to_nat m) l)) at 1.
  rewrite firstn_firstn, Nat.min_l by lia. reflexivity.
Qed.

End SearchFacts.

(** X6: every result of a search is an entity that has a keyword row and at
    least one query token in its keyword string: nothing is returned on a
    score of zero. *)
Theorem search_results_match (st : Store) (query : string) (limit : Z)
    (entity_types : option (list string)) (eid : string) :
  In eid (map result_id (search st query limit entity_types)) ->
  1 <= score st query eid /\
  In eid (map fst (search_index st)) /\
  In eid (map entity_id (entities st)).
Proof.
  rewrite search_ids, in_map_iff. intros ([eid' mc] & <- & Hp).
  apply found_pairs_In in Hp as [Hm (row & Hrow)]. cbn [fst] in *.
  apply matching_ids_In in Hm as (Hin & -> & Hpos).
  repeat split; [exact Hpos | exact Hin |].
  apply fetchone_key in Hrow as [Hr <-]. now apply in_map.
Qed.

Lemma search_results_match_witness :
  In "struct:calc/add.go:Add:2"
     (map result_id (search adder_store "struct" 10 None)) /\
  1 <= score adder_store "struct" "struct:calc/add.go:Add:2" /\
  In "struct:calc/add.go:Add:2" (map fst (search_index adder_store)) /\
  In "struct:calc/add.go:Add:2" (map entity_id (entities adder_store)).
Proof.
  assert (H : In "struct:calc/add.go:Add:2"
                 (map result_id (search adder_store "struct" 10 None)))
    by (vm_compute; now left).
  split; [exact H|].
  exact (search_results_match adder_store "struct" 10 None _ H).
Defined.

Lemma search_complete (st : Store) (query : string) (limit : Z)
    (entity_types : option (list string)) (eid : string) :
  keys_in_step st ->
  (Z.of_nat (length (search_index st)) <= limit)%Z ->
  In eid (map fst (search_index st)) ->
  1 <= score st query eid ->
  In eid (map result_id (search st query limit entity_types)).
Proof.
  intros Hstep Hlimit Hin Hpos.
  rewrite search_ids. apply in_map_iff.
  exists (eid, score st query eid). split; [reflexivity|].
  unfold found_pairs. apply filter_In. split.
  - rewrite slice_to_all.
    + apply sort_desc_In, matching_ids_In. now repeat split.
    + rewrite sort_desc_length.
      pose proof (Subseq_length _ _
        (matching_ids_scan_order st (split_ws (lower query)))) as Hlen.
      rewrite !length_map, key_scan_length in Hlen. lia.
  - cbn [fst]. rewrite <- Hstep in Hin.
    apply fetchone_some in Hin as (row & ->). reflexivity.
Qed.

(** X7: on a store whose two tables are in step, a search with a limit of
    at least the number of indexed rows returns every entity that has a
    query token in its keyword string. *)
Theorem search_finds_all_matches (st : Store) (query : string) (limit : Z)
    (entity_types : option (list string)) (eid : string) :
  keys_in_step st ->
  (Z.of_nat (length (search_index st)) <= limit)%Z ->
  In eid (map fst (search_index st)) ->
  1 <= score st query eid ->
  In eid (map result_id (search st query limit entity_types)).
Proof.
  intros Hstep Hlimit Hin Hpos. now apply search_complete.
Qed.

Lemma search_finds_all_matches_witness :
  keys_in_step adder_store /\
  (Z.of_nat (length (search_index adder_store)) <= 2)%Z /\
  In "file:calc/add.go" (map fst (search_index adder_store)) /\
  1 <= score adder_store "ADD" "file:calc/add.go" /\
  In "file:calc/add.go" (map result_id (search adder_store "ADD" 2 None)).
Proof.
  assert (H1 : keys_in_step adder_store) by (vm_compute; reflexivity).
  assert (H2 : (Z.of_nat (length (search_index adder_store)) <= 2)%Z)
    by (vm_compute; discriminate).
  assert (H3 : In "file:calc/add.go" (map fst (search_index adder_store)))
    by (vm_compute; now left).
  assert (H4 : 1 <= score adder_store "ADD" "file:calc/add.go")
    by (vm_compute; lia).
  split; [exact H1|]. split; [exact H2|]. split; [exact H3|].
  split; [exact H4|].
  exact (search_finds_all_matches adder_store "ADD" 2 None _ H1 H2 H3 H4).
Defined.

(** X8: raising the limit only appends: for limits that are not negative,
    the results for the smaller limit are the first results for the
    larger one. *)
Theorem search_limit_prefix (st : Store) (query : string) (n m : Z)
    (entity_types : option (list string)) :
  (0 <= n <= m)%Z ->
  exists rest,
    search st query m entity_types = search st query n entity_types ++ rest.
Proof.
  intros H. unfold search.
  destruct (slice_to_prefix n m
              (sort_desc (matching_ids st (split_ws (lower query)))) H)
    as (rest & ->).
  rewrite flat_map_app. eexists. reflexivity.
Qed.

Lemma search_limit_prefix_witness :
  (0 <= 1 <= 2)%Z /\
  exists rest,
    search adder_store "add" 2 None = search adder_store "add" 1 None ++ rest.
Proof.
  assert (H : (0 <= 1 <= 2)%Z) by lia.
  split; [exact H|].
  exact (search_limit_prefix adder_store "add" 1 2 None H).
Defined.

(** X9: the interactive loop never shows more than ten results for a
    line, whatever the line and the store. *)
Theorem handle_line_at_most_ten (st : Store) (line : string)
    (results : list dict) :
  handle_line st line = Results results -> length results <= 10.
Proof.
  unfold handle_line.
  destruct (String.eqb (lower (strip line)) "quit"); [discriminate|].
  destruct (String.eqb (lower (strip line)) "arch"); [discriminate|].
  destruct (String.eqb (lower (strip line)) "help"); [discriminate|].
  destruct (String.eqb (strip line) ""); [discriminate|].
  destruct (search_options (strip line)) as [ts q]. intros H.
  inversion H; subst results. clear H.
  rewrite <- (length_map result_id), search_ids, length_map.
  pose proof (found_pairs_length st q 10) as Hlen. lia.
Qed.

Lemma handle_line_at_most_ten_witness :
  handle_line adder_store " struct:add "
    = Results (search adder_store "add" 10 (Some ["struct"])) /\
  length (search adder_store "add" 10 (Some ["struct"])) <= 10.
Proof.
  assert (H : handle_line adder_store " struct:add "
              = Results (search adder_store "add" 10 (Some ["struct"])))
    by (vm_compute; reflexivity).
  split; [exact H|].
  exact (handle_line_at_most_ten adder_store " struct:add " _ H).
Defined.

(** ** What the parser keeps and what it skips *)

Section SkipFacts.

Lemma prefix_app (n a b : string) :
  String.prefix n a = true -> String.prefix n (a ++ b) = true.
Proof.
  revert a. induction n as [|c n IH]; intros a H.
  - now destruct (a ++ b)%string.
  - destruct a as [|x a]; simpl in *; [discriminate|].
    destruct (Ascii.ascii_dec c x); [auto | discriminate].
Qed.

Lemma contains_app_l (n a b : string) :
  contains n a = true -> contains n (a ++ b) = true.
Proof.
  induction a as [|x a IH]; simpl; intros H.
  - rewrite orb_false_r in H. destruct n; [|discriminate].
    destruct b; reflexivity.
  - apply orb_true_iff in H as [H | H].
    + apply (prefix_app _ (String x a) b) in H. simpl in H.
      rewrite H. reflexivity.
    + rewrite (IH H). apply orb_true_r.
Qed.

(** The entities of one file carry its path. *)
Lemma parse_file_path (gf : GoFile) (e : CodeEntity) :
  In e (_parse_file gf) -> file_path e = rel_path gf.
Proof.
  unfold _parse_file. destruct (source gf) as [text|]; [|intros []].
  intros [<- | H]; [reflexivity|]. fields_in H.
  apply in_app_iff in H as [H | H].
  - apply extract_functions_shape in H as [_ Hd]. apply Hd.
  - apply extract_types_shape in H as [_ Hd]. apply Hd.
Qed.

Lemma extract_functions_not_test (text path parent : string)
    (e : CodeEntity) :
  In e (_extract_functions text path parent) ->
  entity_type e = "function" /\ startswith "Test" (name e) = false.
Proof.
  unfold _extract_functions. rewrite in_flat_map. intros (m & _ & Hin).
  destruct (_extract_code_block text (m_start m) (m_end m)) as [sg body].
  destruct (startswith "Test" (group1 text m)) eqn:Ht; [contradiction|].
  destruct Hin as [<- | []]. now split.
Qed.

Lemma extract_types_type (text path parent : string) (e : CodeEntity) :
  In e (_extract_types text path parent) ->
  entity_type e = "struct" \/ entity_type e = "interface".
Proof.
  unfold _extract_types. rewrite in_flat_map.
  intros ([pat ty] & Hpat & Hin).
  rewrite in_map_iff in Hin. destruct Hin as (m & <- & _).
  destruct (_extract_code_block text (m_start m) (m_end m)) as [sg body].
  destruct Hpat as [Hp | [Hp | []]]; inversion Hp; subst; auto.
Qed.

(** The kind of every entity of a run. *)
Lemma parse_all_kind (root : string) (files : list GoFile) (e : CodeEntity) :
  In e (parse_all root files) ->
  entity_type e = "file" \/ entity_type e = "function" \/
  entity_type e = "struct" \/ entity_type e = "interface".
Proof.
  intros H. apply parse_all_shape in H as [Hf | [Hd _]].
  - left. apply Hf.
  - right. apply Hd.
Qed.

Lemma parse_all_In (root : string) (files : list GoFile) (e : CodeEntity) :
  In e (parse_all root files) <->
  exists gf, In gf files /\
             contains "_test.go" (root ++ "/" ++ rel_path gf) = false /\
             In e (_parse_file gf).
Proof.
  unfold parse_all. rewrite in_flat_map. split.
  - intros (gf & Hgf & H). exists gf.
    destruct (contains "_test.go" (root ++ "/" ++ rel_path gf));
      [contradiction | auto].
  - intros (gf & Hgf & Ht & H). exists gf. rewrite Ht. auto.
Qed.

End SkipFacts.

(** X10: no function whose name starts with [Test] is indexed: every
    function entity of a run has another name. *)
Theorem no_test_functions (root : string) (files : list GoFile)
    (e : CodeEntity) :
  In e (parse_all root files) -> entity_type e = "function" ->
  startswith "Test" (name e) = false.
Proof.
  intros H Hty. apply parse_all_In in H as (gf & _ & _ & H).
  unfold _parse_file in H. destruct (source gf) as [text|]; [|contradiction].
  destruct H as [<- | H]; [discriminate|].
  apply in_app_iff in H as [H | H].
  - now apply extract_functions_not_test in H.
  - apply extract_types_type in H as [H | H]; rewrite H in Hty; discriminate.
Qed.

Lemma no_test_functions_witness :
  In (mkEntity "func:cmd/run.go:Run:2" "function" "Run" "cmd/run.go" 2 ""
        "Function Run" "func Run() {" (Some "file:cmd/run.go") None)
     (parse_all "/repo" runner_files) /\
  "function" = "function" /\
  startswith "Test" "Run" = false.
Proof.
  assert (H : In (mkEntity "func:cmd/run.go:Run:2" "function" "Run"
                    "cmd/run.go" 2 "" "Function Run" "func Run() {"
                    (Some "file:cmd/run.go") None)
                 (parse_all "/repo" runner_files))
    by (vm_compute; right; now left).
  split; [exact H|]. split; [reflexivity|].
  exact (no_test_functions "/repo" runner_files _ H eq_refl).
Defined.

(** X11: no entity comes from a file whose full path contains [_test.go]:
    such a file gives neither its file entity nor any declaration. *)
Theorem no_test_files (root : string) (files : list GoFile) (e : CodeEntity) :
  In e (parse_all root files) ->
  contains "_test.go" (root ++ "/" ++ file_path e) = false.
Proof.
  intros H. apply parse_all_In in H as (gf & _ & Ht & H).
  apply parse_file_path in H. now rewrite H.
Qed.

Lemma no_test_files_witness :
  In (mkEntity "func:cmd/run.go:Run:2" "function" "Run" "cmd/run.go" 2 ""
        "Function Run" "func Run() {" (Some "file:cmd/run.go") None)
     (parse_all "/repo" runner_files) /\
  contains "_test.go" ("/repo" ++ "/" ++ "cmd/run.go") = false.
Proof.
  assert (H : In (mkEntity "func:cmd/run.go:Run:2" "function" "Run"
                    "cmd/run.go" 2 "" "Function Run" "func Run() {"
                    (Some "file:cmd/run.go") None)
                 (parse_all "/repo" runner_files))
    by (vm_compute; right; now left).
  split; [exact H|].
  exact (no_test_files "/repo" runner_files _ H).
Defined.

(** X12: the test-file check looks at the whole path, root included: under
    a root directory whose own path contains [_test.go] every file is
    skipped and the run yields no entity. *)
Theorem test_root_yields_nothing (root : string) (files : list GoFile) :
  contains "_test.go" root = true -> parse_all root files = [].
Proof.
  intros H. unfold parse_all. apply flat_map_nil. intros gf _.
  now rewrite (contains_app_l _ root ("/" ++ rel_path gf) H).
Qed.

Lemma test_root_yields_nothing_witness :
  contains "_test.go" "/work/old_test.go.d" = true /\
  parse_all "/work/old_test.go.d" adder_files = [].
Proof.
  assert (H : contains "_test.go" "/work/old_test.go.d" = true)
    by (vm_compute; reflexivity).
  split; [exact H|].
  exact (test_root_yields_nothing "/work/old_test.go.d" adder_files H).
Defined.

(** X13: the three counts [main] prints after parsing account for every
    entity: files, functions and types add up to the number of entities. *)
Theorem summary_counts_add_up (root : string) (files : list GoFile) :
  summary_files (parse_all root files)
    + summary_functions (parse_all root files)
    + summary_types (parse_all root files)
  = length (parse_all root files).
Proof.
  pose proof (parse_all_kind root files) as Hkind.
  unfold summary_files, summary_functions, summary_types, count_where.
  induction (parse_all root files) as [|e es IH]; [reflexivity|].
  specialize (IH (fun e' He' => Hkind e' (or_intror He'))).
  cbn [filter length].
  destruct (Hkind e (or_introl eq_refl)) as [H | [H | [H | H]]];
    rewrite H; cbn [String.eqb Ascii.eqb Bool.eqb orb length]; lia.
Qed.

(** ** Texts without a keyword *)

Section LiteralFacts.

Lemma m_lit_prefix {R} (l : string) pv s i g (k : cursor -> option R) x :
  m_lit l pv s i g k = Some x -> String.prefix l s = true.
Proof.
  revert pv s i. induction l as [|a l IH]; intros pv s i H.
  - now destruct s.
  - simpl in H. destruct s as [|c s']; [discriminate|].
    destruct (Ascii.eqb a c) eqn:Hac; [|discriminate].
    apply Ascii.eqb_eq in Hac. subst c. simpl.
    destruct (Ascii.ascii_dec a a); [eauto | contradiction].
Qed.

(** A pattern that begins with a literal finds nothing in a text that does
    not contain the literal. *)
Lemma scan_without_literal (l : string) (rs : list regex) pv s i skip :
  contains l s = false -> scan (cat (Lit l :: rs)) pv s i skip = [].
Proof.
  revert pv i skip. induction s as [|c s' IH]; intros pv i skip H;
    [reflexivity|].
  cbn [contains] in H. apply orb_false_iff in H as [Hp Hc].
  cbn [scan]. destruct skip as [|skip]; [|now apply IH].
  destruct (match_here (cat (Lit l :: rs)) (mkCursor pv (String c s') i None))
    as [m|] eqn:Hm; [|now apply IH].
  unfold match_here in Hm. cbn [cat fold_right m_re] in Hm.
  apply m_lit_prefix in Hm. cbn [c_rest] in Hm. congruence.
Qed.

Lemma finditer_without_literal (l : string) (rs : list regex) (s : string) :
  contains l s = false -> finditer (cat (Lit l :: rs)) s = [].
Proof. apply scan_without_literal. Qed.

End LiteralFacts.

(** X14: a file whose text contains neither [func] nor [type] yields its
    file entity and nothing else. *)
Theorem file_without_declarations (path text : string) :
  contains "func" text = false -> contains "type" text = false ->
  _parse_file (mkGoFile path (Some text)) = [file_entity_of path text].
Proof.
  intros Hf Ht. unfold _parse_file. cbn [source rel_path]. f_equal.
  unfold _extract_functions, _extract_types. cbn [flat_map].
  unfold func_pattern, struct_pattern, interface_pattern.
  rewrite !finditer_without_literal by assumption. reflexivity.
Qed.

Lemma file_without_declarations_witness :
  contains "func" "package empty" = false /\
  contains "type" "package empty" = false /\
  _parse_file (mkGoFile "empty.go" (Some "package empty"))
    = [file_entity_of "empty.go" "package empty"].
Proof.
  assert (H1 : contains "func" "package empty" = false)
    by (vm_compute; reflexivity).
  assert (H2 : contains "type" "package empty" = false)
    by (vm_compute; reflexivity).
  split; [exact H1|]. split; [exact H2|].
  exact (file_without_declarations "empty.go" "package empty" H1 H2).
Defined.

(** X15: a file whose text does not contain [package] gets the signature
    [package unknown]. *)
Theorem package_unknown (path text : string) :
  contains "package" text = false ->
  signature (file_entity_of path text) = "package unknown".
Proof.
  intros H. unfold file_entity_of. fields.
  unfold _extract_package, Re.search, package_pattern.
  now rewrite finditer_without_literal.
Qed.

Lemma package_unknown_witness :
  contains "package" "// notes only" = false /\
  signature (file_entity_of "notes.go" "// notes only") = "package unknown".
Proof.
  assert (H : contains "package" "// notes only" = false)
    by (vm_compute; reflexivity).
  split; [exact H|].
  exact (package_unknown "notes.go" "// notes only" H).
Defined.

(** ** Line numbers *)

Section LineFacts.

Lemma count_char_take (c : ascii) (n : nat) (s : string) :
  count_char c (take n s) <= count_char c s.
Proof.
  revert s. induction n as [|n IH]; intros [|x s]; simpl; try lia.
  specialize (IH s). lia.
Qed.

Lemma split_on_length (c : ascii) (s : string) :
  length (split_on c s) = count_char c s + 1.
Proof.
  induction s as [|x s IH]; simpl; [reflexivity|].
  destruct (Ascii.eqb x c); simpl; [lia|].
  destruct (split_on c s); simpl in *; lia.
Qed.

Lemma line_of_range (text : string) (i : nat) :
  1 <= line_of text i <= length (lines_of text).
Proof.
  unfold line_of, lines_of. rewrite split_on_length.
  pose proof (count_char_take "010" i text). lia.
Qed.

End LineFacts.

(** X16: the line number of every entity of a file is a line of the file:
    at least 1 and at most the number of lines of its text. *)
Theorem line_number_in_file (path text : string) (e : CodeEntity) :
  In e (_parse_file (mkGoFile path (Some text))) ->
  1 <= line_number e <= length (lines_of text).
Proof.
  unfold _parse_file. cbn [source rel_path]. intros [<- | H].
  - unfold file_entity_of. fields. unfold lines_of.
    rewrite split_on_length. lia.
  - apply in_app_iff in H as [H | H].
    + unfold _extract_functions in H. apply in_flat_map in H as (m & _ & H).
      destruct (_extract_code_block text (m_start m) (m_end m)) as [sg body].
      destruct (startswith "Test" (group1 text m)); [contradiction|].
      destruct H as [<- | []]. fields. apply line_of_range.
    + unfold _extract_types in H. apply in_flat_map in H as ([pat ty] & _ & H).
      apply in_map_iff in H as (m & <- & _).
      destruct (_extract_code_block text (m_start m) (m_end m)) as [sg body].
      fields. apply line_of_range.
Qed.

Lemma line_number_in_file_witness :
  In (mkEntity "func:run.go:Run:2" "function" "Run" "run.go" 2 ""
        "Function Run" "func Run() {" (Some "file:run.go") None)
     (_parse_file (mkGoFile "run.go" (Some run_source))) /\
  1 <= 2 <= length (lines_of run_source).
Proof.
  assert (H : In (mkEntity "func:run.go:Run:2" "function" "Run" "run.go" 2 ""
                    "Function Run" "func Run() {" (Some "file:run.go") None)
                 (_parse_file (mkGoFile "run.go" (Some run_source))))
    by (vm_compute; right; now left).
  split; [exact H|].
  exact (line_number_in_file "run.go" run_source _ H).
Defined.

(** ** The body of a declaration *)

Section BlockFacts.

Lemma drop_drop (m n : nat) (s : string) :
  drop n (drop m s) = drop (m + n) s.
Proof.
  revert s. induction m as [|m IH]; intros s; [reflexivity|].
  destruct s as [|c s]; simpl; [now destruct n | apply IH].
Qed.

Lemma take_take (n m : nat) (s : string) :
  take n (take m s) = take (Nat.min n m) s.
Proof.
  revert m s. induction n as [|n IH]; intros [|m] [|c s]; simpl;
    try reflexivity.
  now rewrite IH.
Qed.

Lemma find_char_at_found (c : ascii) (s : string) (i b : nat) :
  find_char_at c s i = Some b ->
  exists t, i <= b /\ drop (b - i) s = String c t.
Proof.
  revert i. induction s as [|x s IH]; intros i H; simpl in H;
    [discriminate|].
  destruct (Ascii.eqb x c) eqn:Hx.
  - apply Ascii.eqb_eq in Hx. inversion H; subst. exists s.
    rewrite Nat.sub_diag. now split.
  - apply IH in H as (t & Hle & Hd). exists t. split; [lia|].
    replace (b - i) with (S (b - S i)) by lia. exact Hd.
Qed.

Lemma find_from_found (c : ascii) (s : string) (from b : nat) :
  find_from c s from = Some b ->
  exists t, from <= b /\ drop b s = String c t.
Proof.
  unfold find_from. intros H.
  apply find_char_at_found in H as (t & Hle & Hd).
  exists t. split; [exact Hle|].
  rewrite drop_drop in Hd. now replace (from + (b - from)) with b in Hd by lia.
Qed.

Lemma close_scan_ge (s : string) (pos depth : nat) :
  pos <= close_scan s pos depth.
Proof.
  revert pos depth. induction s as [|c s IH]; intros pos [|d]; simpl;
    try lia.
  destruct (Ascii.eqb c "{"); [|destruct (Ascii.eqb c "}")];
    match goal with |- _ <= close_scan s ?p ?k =>
      specialize (IH p k); lia end.
Qed.

(** While the scan runs the depth stays positive: in what it went over,
    the closing braces exceed the opening ones by at most the depth it
    started with. *)
Lemma close_scan_depth (s : string) (pos depth m : nat) :
  m <= close_scan s pos depth - pos ->
  closes (take m s) <= opens (take m s) + depth.
Proof.
  unfold closes, opens. revert pos depth m.
  induction s as [|c s IH]; intros pos depth m H.
  - destruct m; simpl; lia.
  - destruct m as [|m]; [simpl; lia|].
    destruct depth as [|d]; [simpl in H; lia|].
    cbn [close_scan] in H. cbn [take count_char].
    destruct (Ascii.eqb c "{") eqn:Ho.
    + apply Ascii.eqb_eq in Ho. subst c. cbn.
      assert (Hm : m <= close_scan s (S pos) (S (S d)) - S pos) by lia.
      specialize (IH _ _ _ Hm). lia.
    + destruct (Ascii.eqb c "}") eqn:Hc.
      * assert (Hm : m <= close_scan s (S pos) d - S pos) by lia.
        specialize (IH _ _ _ Hm). lia.
      * assert (Hm : m <= close_scan s (S pos) (S d) - S pos) by lia.
        specialize (IH _ _ _ Hm). lia.
Qed.

Lemma extract_code_block_body (text : string) (start end_ : nat) :
  scanned_block (snd (_extract_code_block text start end_)).
Proof.
  unfold _extract_code_block, scanned_block.
  destruct (find_from "{" text end_) as [b|] eqn:Hfind; cbn [snd];
    [right | now left].
  apply find_from_found in Hfind as (t & _ & Hd).
  pose proof (drop_next _ _ _ _ Hd) as Hd'.
  replace (b + 1) with (S b) by lia. rewrite Hd'.
  pose proof (close_scan_ge t (S b) 1) as Hge.
  unfold slice. rewrite Hd.
  destruct (Nat.min (close_scan t (S b) 1) (b + 500) - b) as [|k] eqn:Hk;
    [lia|].
  exists t, (S b), k. split; [reflexivity | lia].
Qed.

Lemma scanned_block_take (n : nat) (s : string) :
  scanned_block s -> scanned_block (take n s).
Proof.
  intros [-> | (t & p & m & -> & Hm)].
  - left. now destruct n.
  - destruct n as [|n]; [now left | right].
    exists t, p, (Nat.min n m). cbn [take]. rewrite take_take.
    split; [reflexivity | lia].
Qed.

Lemma scanned_block_braces (s : string) :
  scanned_block s ->
  (s = EmptyString \/ startswith "{" s = true) /\ closes s <= opens s.
Proof.
  intros [-> | (t & p & m & -> & Hm)].
  - split; [now left | reflexivity].
  - split.
    { right. unfold startswith. simpl.
      destruct (Ascii.ascii_dec "{" "{"); [|contradiction].
      now destruct (take m t). }
    pose proof (close_scan_depth t p 1 m Hm) as H.
    unfold closes, opens in *. cbn [count_char]. cbn. lia.
Qed.

(** The content of every declaration is a scanned block. *)
Lemma declaration_content_block (root : string) (files : list GoFile)
    (e : CodeEntity) :
  In e (parse_all root files) -> is_declaration (entity_type e) ->
  scanned_block (content e).
Proof.
  intros H Hdecl. apply parse_all_In in H as (gf & _ & _ & H).
  unfold _parse_file in H. destruct (source gf) as [text|]; [|contradiction].
  destruct H as [<- | H].
  { apply declaration_not_file in Hdecl. now contradiction Hdecl. }
  apply in_app_iff in H as [H | H].
  - unfold _extract_functions in H. apply in_flat_map in H as (m & _ & H).
    pose proof (extract_code_block_body text (m_start m) (m_end m)) as Hb.
    destruct (_extract_code_block text (m_start m) (m_end m)) as [sg body].
    destruct (startswith "Test" (group1 text m)); [contradiction|].
    destruct H as [<- | []]. fields. now apply scanned_block_take.
  - unfold _extract_types in H. apply in_flat_map in H as ([pat ty] & _ & H).
    apply in_map_iff in H as (m & <- & _).
    pose proof (extract_code_block_body text (m_start m) (m_end m)) as Hb.
    destruct (_extract_code_block text (m_start m) (m_end m)) as [sg body].
    fields. now apply scanned_block_take.
Qed.

End BlockFacts.

(** X17: the content of every function, struct or interface entity is
    empty or starts with an opening brace, and it never has more closing
    braces than opening ones. *)
Theorem declaration_content_braces (root : string) (files : list GoFile)
    (e : CodeEntity) :
  In e (parse_all root files) -> is_declaration (entity_type e) ->
  (content e = EmptyString \/ startswith "{" (content e) = true) /\
  closes (content e) <= opens (content e).
Proof.
  intros H Hdecl. apply scanned_block_braces.
  now apply (declaration_content_block root files).
Qed.

Lemma declaration_content_braces_witness :
  In (mkEntity "func:m.go:Add:1" "function" "Add" "m.go" 1
        "{ return a + b }" "Function Add"
        "func (r *T) Add(a, b int) (int, error) { if ok"
        (Some "file:m.go") None)
     (parse_all "/repo"
        [mkGoFile "m.go"
           (Some "func (r *T) Add(a, b int) (int, error) { if ok { return a + b } }")]) /\
  is_declaration "function" /\
  ("{ return a + b }" = EmptyString \/
   startswith "{" "{ return a + b }" = true) /\
  closes "{ return a + b }" <= opens "{ return a + b }".
Proof.
  assert (H : In (mkEntity "func:m.go:Add:1" "function" "Add" "m.go" 1
        "{ return a + b }" "Function Add"
        "func (r *T) Add(a, b int) (int, error) { if ok"
        (Some "file:m.go") None)
     (parse_all "/repo"
        [mkGoFile "m.go"
           (Some "func (r *T) Add(a, b int) (int, error) { if ok { return a + b } }")]))
    by (vm_compute; right; now left).
  assert (Hd : is_declaration "function") by (now left).
  split; [exact H|]. split; [exact Hd|].
  exact (declaration_content_braces "/repo" _ _ H Hd).
Defined.

(** ** The counts of the architecture overview *)

Section OverviewFacts.

Lemma incr_total (k : string) (d : counter) :
  list_sum (map snd (incr k d)) = S (list_sum (map snd d)).
Proof.
  induction d as [|[k' n] d IH]; [reflexivity|].
  cbn [incr]. unfold list_sum in *.
  destruct (String.eqb k' k); cbn [map snd fold_right];
    [lia | rewrite IH; lia].
Qed.

Lemma counter_get_incr (k k' : string) (d : counter) :
  counter_get k' (incr k d)
  = (if String.eqb k k' then 1 else 0) + counter_get k' d.
Proof.
  unfold counter_get. induction d as [|[k0 n] d IH]; cbn [incr find fst].
  - destruct (String.eqb k k'); reflexivity.
  - destruct (String.eqb k0 k) eqn:H0; cbn [find fst snd].
    + apply String.eqb_eq in H0. subst k0.
      destruct (String.eqb k k'); reflexivity.
    + destruct (String.eqb k0 k') eqn:H1; [|exact IH].
      apply String.eqb_eq in H1. subst k0.
      rewrite String.eqb_sym in H0. now rewrite H0.
Qed.

Lemma overview_fold (rows : list Row) (acc : overview) :
  total_entities (fold_left overview_step rows acc)
    = total_entities acc + length rows /\
  list_sum (map snd (by_type (fold_left overview_step rows acc)))
    = list_sum (map snd (by_type acc)) + length rows /\
  list_sum (map snd (by_package (fold_left overview_step rows acc)))
    = list_sum (map snd (by_package acc)) + length rows /\
  (forall t,
     counter_get t (by_type (fold_left overview_step rows acc))
     = counter_get t (by_type acc)
       + length (filter (fun r => String.eqb (entity_type r) t) rows)) /\
  (forall p,
     counter_get p (by_package (fold_left overview_step rows acc))
     = counter_get p (by_package acc)
       + length (filter (fun r => String.eqb (package_of (file_path r)) p)
                   rows)).
Proof.
  revert acc. induction rows as [|r rows IH]; intros acc.
  - simpl. repeat split; intros; lia.
  - cbn [fold_left]. destruct (IH (overview_step acc r))
      as (H1 & H2 & H3 & H4 & H5).
    rewrite H1, H2, H3. unfold overview_step at 1 2 3.
    cbn [total_entities by_type by_package]. rewrite !incr_total.
    repeat split; try (simpl; lia).
    + intros t. rewrite H4. unfold overview_step. cbn [by_type filter].
      rewrite counter_get_incr.
      destruct (String.eqb (entity_type r) t); simpl; lia.
    + intros p. rewrite H5. unfold overview_step. cbn [by_package filter].
      rewrite counter_get_incr.
      destruct (String.eqb (package_of (file_path r)) p); simpl; lia.
Qed.

Lemma split_on_no_sep (c : ascii) (s : string) :
  mem_char c s = false -> split_on c s = [s].
Proof.
  induction s as [|x s IH]; simpl; [reflexivity|]. intros H.
  apply orb_false_iff in H as [Hx Hs]. now rewrite Hx, (IH Hs).
Qed.

Lemma split_on_first (c : ascii) (a b : string) :
  mem_char c a = false ->
  split_on c (a ++ String c b) = a :: split_on c b.
Proof.
  induction a as [|x a IH]; simpl; intros H.
  - now rewrite Ascii.eqb_refl.
  - apply orb_false_iff in H as [Hx Ha]. now rewrite Hx, (IH Ha).
Qed.

End OverviewFacts.

(** X18: the overview counts every row once: [total_entities] is the
    number of rows of [entities], and the counts of [by_type] and those of
    [by_package] each add up to it. *)
Theorem overview_totals (st : Store) :
  total_entities (get_architecture_overview st) = length (entities st) /\
  list_sum (map snd (by_type (get_architecture_overview st)))
    = length (entities st) /\
  list_sum (map snd (by_package (get_architecture_overview st)))
    = length (entities st).
Proof.
  unfold get_architecture_overview.
  destruct (overview_fold (entities st) (mkOverview 0 [] []))
    as (H1 & H2 & H3 & _).
  simpl in *. auto.
Qed.

(** X19: the count the overview gives for a type is the number of rows of
    that type, and the count it gives for a package the number of rows
    whose path starts with that segment; a type or package without rows
    counts 0. *)
Theorem overview_counts (st : Store) (t p : string) :
  counter_get t (by_type (get_architecture_overview st))
    = length (filter (fun r => String.eqb (entity_type r) t) (entities st)) /\
  counter_get p (by_package (get_architecture_overview st))
    = length (filter (fun r => String.eqb (package_of (file_path r)) p)
                (entities st)).
Proof.
  unfold get_architecture_overview.
  destruct (overview_fold (entities st) (mkOverview 0 [] []))
    as (_ & _ & _ & H4 & H5).
  rewrite H4, H5. split; reflexivity.
Qed.

(** X20: the package of a path is its first segment, so a file at the top
    level of the tree counts as a package of its own, named after the
    file; the fallback name [root] is given to none. *)
Theorem package_is_first_segment (p rest : string) :
  mem_char "/" p = false ->
  package_of p = p /\ package_of (p ++ String "/" rest) = p.
Proof.
  intros H. unfold package_of.
  now rewrite (split_on_no_sep _ _ H), (split_on_first _ _ _ H).
Qed.

Lemma package_is_first_segment_witness :
  mem_char "/" "main.go" = false /\
  package_of "main.go" = "main.go" /\
  package_of ("main.go" ++ String "/" "x") = "main.go".
Proof.
  assert (H : mem_char "/" "main.go" = false) by (vm_compute; reflexivity).
  split; [exact H|].
  exact (package_is_first_segment "main.go" "x" H).
Defined.

(** ** The interactive loop on blank input *)

Lemma strip_all_space (s : string) :
  all_chars is_space s = true -> strip s = EmptyString.
Proof.
  unfold strip, strip_by.
  induction s as [|c s IH]; simpl; [reflexivity|]. intros H.
  apply andb_true_iff in H as [Hc Hs]. rewrite Hc. auto.
Qed.

(** X21: a line of white space only is passed over: it is no command and
    no search is made for it. *)
Theorem blank_line_is_skipped (st : Store) (line : string) :
  all_chars is_space line = true -> handle_line st line = Again.
Proof.
  intros H. unfold handle_line. now rewrite (strip_all_space _ H).
Qed.

Lemma blank_line_is_skipped_witness :
  all_chars is_space "   " = true /\ handle_line adder_store "   " = Again.
Proof.
  assert (H : all_chars is_space "   " = true) by (vm_compute; reflexivity).
  split; [exact H|].
  exact (blank_line_is_skipped adder_store "   " H).
Defined.

(** ** The file-level entity *)

Section FileEntityFacts.

Lemma prefix_self_app (a b : string) : String.prefix a (a ++ b) = true.
Proof.
  induction a as [|c a IH]; simpl; [now destruct b|].
  destruct (Ascii.ascii_dec c c); [exact IH | contradiction].
Qed.

Lemma extract_file_summary_length (text : string) :
  String.length (_extract_file_summary text) <= 200.
Proof.
  unfold _extract_file_summary.
  destruct (summary_loop _); [|apply take_length].
  change (10 <= 200). lia.
Qed.

Lemma summary_loop_no_comment (lines : list string) :
  (forall line, In line lines -> startswith "//" (strip line) = false) ->
  summary_loop lines = [].
Proof.
  induction lines as [|line lines IH]; intros H; [reflexivity|].
  cbn [summary_loop]. rewrite (H line (or_introl eq_refl)).
  destruct (negb _ && negb _); [reflexivity|].
  apply IH. intros l Hl. apply H. now right.
Qed.

End FileEntityFacts.

(** X22: the file entity of every file has line number 1, the last path
    segment as name, a signature that starts with [package ], and a summary
    of at most 200 characters. *)
Theorem file_entity_fields (root : string) (files : list GoFile)
    (e : CodeEntity) :
  In e (parse_all root files) -> entity_type e = "file" ->
  line_number e = 1 /\
  name e = path_name (file_path e) /\
  startswith "package " (signature e) = true /\
  String.length (summary e) <= 200.
Proof.
  intros H Hty. apply parse_all_In in H as (gf & _ & _ & H).
  unfold _parse_file in H. destruct (source gf) as [text|]; [|contradiction].
  destruct H as [<- | H].
  - unfold file_entity_of. fields. repeat split.
    + apply prefix_self_app.
    + apply extract_file_summary_length.
  - exfalso. apply in_app_iff in H as [H | H].
    + apply extract_functions_not_test in H as [H _].
      rewrite H in Hty. discriminate.
    + apply extract_types_type in H as [H | H];
        rewrite H in Hty; discriminate.
Qed.

Lemma file_entity_fields_witness :
  In (file_entity_of "calc/add.go" adder_source)
     (parse_all "/repo" adder_files) /\
  entity_type (file_entity_of "calc/add.go" adder_source) = "file" /\
  line_number (file_entity_of "calc/add.go" adder_source) = 1 /\
  name (file_entity_of "calc/add.go" adder_source)
    = path_name (file_path (file_entity_of "calc/add.go" adder_source)) /\
  startswith "package "
    (signature (file_entity_of "calc/add.go" adder_source)) = true /\
  String.length (summary (file_entity_of "calc/add.go" adder_source)) <= 200.
Proof.
  assert (H : In (file_entity_of "calc/add.go" adder_source)
                 (parse_all "/repo" adder_files))
    by (vm_compute; now left).
  split; [exact H|]. split; [reflexivity|].
  exact (file_entity_fields "/repo" adder_files _ H eq_refl).
Defined.

(** X23: a text none of whose first twenty lines is a comment line gets
    the summary [Go package]. *)
Theorem summary_default (text : string) :
  (forall line, In line (firstn 20 (lines_of text)) ->
                startswith "//" (strip line) = false) ->
  _extract_file_summary text = "Go package".
Proof.
  intros H. unfold _extract_file_summary.
  fold (lines_of text). now rewrite (summary_loop_no_comment _ H).
Qed.

Lemma summary_default_witness :
  (forall line, In line (firstn 20 (lines_of "package main")) ->
                startswith "//" (strip line) = false) /\
  _extract_file_summary "package main" = "Go package".
Proof.
  assert (H : forall line, In line (firstn 20 (lines_of "package main")) ->
                startswith "//" (strip line) = false).
  { assert (E : firstn 20 (lines_of "package main") = ["package main"])
      by (vm_compute; reflexivity).
    rewrite E. intros line [<- | []]. vm_compute. reflexivity. }
  split; [exact H|].
  exact (summary_default "package main" H).
Defined.

(** ** Finding an entity by one of its keywords *)

Section KeywordFacts.

Lemma lower_app (a b : string) : lower (a ++ b) = (lower a ++ lower b)%string.
Proof.
  induction a as [|c a IH]; simpl; [reflexivity | now rewrite IH].
Qed.

Lemma append_assoc' (a b c : string) :
  ((a ++ b) ++ c = a ++ (b ++ c))%string.
Proof.
  induction a as [|x a IH]; simpl; [reflexivity | now rewrite IH].
Qed.

Lemma append_empty_r (a : string) : (a ++ "" = a)%string.
Proof.
  induction a as [|x a IH]; simpl; [reflexivity | now rewrite IH].
Qed.

Lemma join_mid (sep w : string) (l : list string) :
  In w l -> exists A B, join sep l = (A ++ w ++ B)%string.
Proof.
  induction l as [|x l IH]; [intros []|]. intros [-> | H].
  - destruct l as [|y l].
    + exists EmptyString, EmptyString. simpl. now rewrite append_empty_r.
    + exists EmptyString, (sep ++ join sep (y :: l))%string. reflexivity.
  - destruct (IH H) as (A & B & E). destruct l as [|y l]; [contradiction|].
    exists (x ++ sep ++ A)%string, B.
    change (join sep (x :: y :: l)) with (x ++ sep ++ join sep (y :: l))%string.
    rewrite E. now rewrite !append_assoc'.
Qed.

Lemma contains_prefix (n h : string) :
  String.prefix n h = true -> contains n h = true.
Proof.
  intros H. destruct h; cbn [contains]; now rewrite H.
Qed.

Lemma contains_mid (w A B : string) : contains w (A ++ w ++ B) = true.
Proof.
  induction A as [|c A IH].
  - change (contains w (w ++ B) = true).
    apply contains_prefix, prefix_self_app.
  - cbn [append contains]. rewrite IH. apply orb_true_r.
Qed.

(** Each word collected for an entity occurs, lower-cased, in its keyword
    string. *)
Lemma keyword_word_contained (e : CodeEntity) (w : string) :
  In w (keyword_words e) -> contains (lower w) (_create_keywords e) = true.
Proof.
  intros H. change (_create_keywords e)
    with (lower (join " " (keyword_words e))).
  destruct (join_mid " " w _ H) as (A & B & ->).
  rewrite !lower_app. apply contains_mid.
Qed.

End KeywordFacts.

Lemma search_by_keyword (st : Store) (e : CodeEntity) (w : string)
    (limit : Z) (entity_types : option (list string)) :
  keys_in_step st ->
  fetchone fst (entity_id e) (search_index st) = Some (keyword_row e) ->
  In w (keyword_words e) ->
  split_ws (lower w) = [lower w] ->
  (Z.of_nat (length (search_index st)) <= limit)%Z ->
  In (entity_id e) (map result_id (search st w limit entity_types)).
Proof.
  intros Hstep Hrow Hw Htok Hlimit.
  apply search_complete; try assumption.
  - apply fetchone_key in Hrow as [Hin _].
    apply in_map_iff. exists (keyword_row e). now split.
  - unfold score. rewrite Hrow, Htok. cbn [keyword_row snd].
    rewrite create_keywords_lower. unfold match_count. cbn [filter].
    now rewrite (keyword_word_contained e w Hw).
Qed.

(** X24: an entity is found by each of its keywords, in any case: a query
    that is one word of its name, its type, one of the first five words of
    its summary or a segment of its path returns the entity, when the word
    is a single token and the limit is at least the number of indexed
    rows. *)
Theorem found_by_keyword (st : Store) (e : CodeEntity) (w : string)
    (limit : Z) (entity_types : option (list string)) :
  keys_in_step st ->
  fetchone fst (entity_id e) (search_index st) = Some (keyword_row e) ->
  In w (keyword_words e) ->
  split_ws (lower w) = [lower w] ->
  (Z.of_nat (length (search_index st)) <= limit)%Z ->
  In (entity_id e) (map result_id (search st w limit entity_types)).
Proof.
  intros. now apply search_by_keyword.
Qed.

Lemma found_by_keyword_witness :
  keys_in_step adder_store /\
  fetchone fst (entity_id adder_struct_row) (search_index adder_store)
    = Some (keyword_row adder_struct_row) /\
  In "calc" (keyword_words adder_struct_row) /\
  split_ws (lower "calc") = [lower "calc"] /\
  (Z.of_nat (length (search_index adder_store)) <= 5)%Z /\
  In (entity_id adder_struct_row)
     (map result_id (search adder_store "calc" 5 None)).
Proof.
  assert (H1 : keys_in_step adder_store) by (vm_compute; reflexivity).
  assert (H2 : fetchone fst (entity_id adder_struct_row)
                 (search_index adder_store)
               = Some (keyword_row adder_struct_row))
    by (vm_compute; reflexivity).
  assert (H3 : In "calc" (keyword_words adder_struct_row))
    by (vm_compute; tauto).
  assert (H4 : split_ws (lower "calc") = [lower "calc"])
    by (vm_compute; reflexivity).
  assert (H5 : (Z.of_nat (length (search_index adder_store)) <= 5)%Z)
    by (vm_compute; discriminate).
  split; [exact H1|]. split; [exact H2|]. split; [exact H3|].
  split; [exact H4|]. split; [exact H5|].
  exact (found_by_keyword adder_store adder_struct_row "calc" 5 None
           H1 H2 H3 H4 H5).
Defined.

(** ** The captured name *)

Section GroupFacts.
Variable content : string.
Context {R : Type}.

Lemma slice_step (i j : nat) (c : ascii) (s' : string) :
  drop i content = String c s' -> i < j ->
  slice i j content = String c (slice (S i) j content).
Proof.
  intros Hd Hlt. unfold slice. rewrite Hd, (drop_next _ _ _ _ Hd).
  replace (j - i) with (S (j - S i)) by lia. reflexivity.
Qed.

Lemma slice_empty (i : nat) : slice i i content = EmptyString.
Proof.
  unfold slice. rewrite Nat.sub_diag. now destruct (drop i content).
Qed.

Lemma m_lit_grp (l : string) pv s i g (k : cursor -> option R) x :
  s = drop i content -> m_lit l pv s i g k = Some x ->
  exists cu', cursor_in content cu' /\ c_grp cu' = g /\ k cu' = Some x.
Proof.
  revert pv s i. induction l as [|a l IH]; intros pv s i Hs H; simpl in H.
  - exists (mkCursor pv s i g). now repeat split.
  - destruct s as [|c s']; [discriminate|].
    destruct (Ascii.eqb a c); [|discriminate].
    symmetry in Hs. apply drop_next in Hs.
    exact (IH (Some c) s' (S i) (eq_sym Hs) H).
Qed.

Lemma m_star_grp (f : ascii -> bool) pv s i g (k : cursor -> option R) x :
  s = drop i content -> m_star f pv s i g k = Some x ->
  exists cu', cursor_in content cu' /\ c_grp cu' = g /\
              i <= c_pos cu' /\
              all_chars f (slice i (c_pos cu') content) = true /\
              k cu' = Some x.
Proof.
  revert pv i. induction s as [|c s' IH]; intros pv i Hs H; simpl in H.
  - exists (mkCursor pv EmptyString i g). cbn [c_pos c_grp].
    rewrite slice_empty. now repeat split.
  - assert (Hhere : k (mkCursor pv (String c s') i g) = Some x ->
      exists cu', cursor_in content cu' /\ c_grp cu' = g /\
                  i <= c_pos cu' /\
                  all_chars f (slice i (c_pos cu') content) = true /\
                  k cu' = Some x).
    { intros Hk. exists (mkCursor pv (String c s') i g). cbn [c_pos c_grp].
      rewrite slice_empty. now repeat split. }
    destruct (f c) eqn:Hf; [|auto].
    destruct (m_star f (Some c) s' (S i) g k) as [y|] eqn:Hrec; [|auto].
    inversion H; subst y.
    pose proof (drop_next _ _ _ _ (eq_sym Hs)) as Hs'.
    destruct (IH (Some c) (S i) (eq_sym Hs') Hrec)
      as (cu' & Hin & Hg & Hle & Hall & Hk).
    exists cu'. repeat split; [assumption | assumption | lia | | assumption].
    rewrite (slice_step i (c_pos cu') c s' (eq_sym Hs)) by lia.
    cbn [all_chars]. now rewrite Hf, Hall.
Qed.

Lemma word_span_grp (cu cu' : cursor) :
  c_grp cu' = c_grp cu -> word_span content cu -> word_span content cu'.
Proof.
  unfold word_span. now intros ->.
Qed.

(** A match keeps a word in the group, and has one there once it went
    through the group. *)
Lemma m_re_groups (r : regex) (cu : cursor) (k : cursor -> option R) x :
  word_groups r -> cursor_in content cu -> word_span content cu ->
  m_re r cu k = Some x ->
  exists cu', cursor_in content cu' /\ word_span content cu' /\
              (c_grp cu <> None \/ has_group r -> c_grp cu' <> None) /\
              k cu' = Some x.
Proof.
  revert cu k. induction r as [l|f|f|f|r1 IH1 r2 IH2|r IH|r IH|];
    intros [pv s i g] k Hwg Hcu Hw H; unfold cursor_in in Hcu;
    cbn [c_rest c_pos c_grp c_prev] in *.
  - cbn [m_re c_rest c_pos c_grp c_prev] in H.
    destruct (m_lit_grp l pv s i g k x Hcu H) as (cu' & Hin & Hg & Hk).
    exists cu'. repeat split; [assumption | | | assumption].
    + now apply (word_span_grp (mkCursor pv s i g)).
    + rewrite Hg. now intros [? | []].
  - cbn [m_re c_rest c_pos c_grp c_prev] in H.
    destruct s as [|c s']; [discriminate|].
    destruct (f c); [|discriminate].
    pose proof (drop_next _ _ _ _ (eq_sym Hcu)) as Hs'.
    exists (mkCursor (Some c) s' (S i) g).
    repeat split; [now symmetry | exact Hw | | exact H].
    cbn [c_grp]. now intros [? | []].
  - cbn [m_re c_rest c_pos c_grp c_prev] in H.
    destruct (m_star_grp f pv s i g k x Hcu H)
      as (cu' & Hin & Hg & _ & _ & Hk).
    exists cu'. repeat split; [assumption | | | assumption].
    + now apply (word_span_grp (mkCursor pv s i g)).
    + rewrite Hg. now intros [? | []].
  - cbn [m_re c_rest c_pos c_grp c_prev] in H.
    destruct s as [|c s']; [discriminate|].
    destruct (f c); [|discriminate].
    pose proof (drop_next _ _ _ _ (eq_sym Hcu)) as Hs'.
    destruct (m_star_grp f (Some c) s' (S i) g k x (eq_sym Hs') H)
      as (cu' & Hin & Hg & _ & _ & Hk).
    exists cu'. repeat split; [assumption | | | assumption].
    + now apply (word_span_grp (mkCursor pv (String c s') i g)).
    + rewrite Hg. now intros [? | []].
  - destruct Hwg as [Hwg1 Hwg2]. cbn [m_re] in H.
    destruct (IH1 (mkCursor pv s i g) _ Hwg1 Hcu Hw H)
      as (cu1 & Hin1 & Hw1 & Hg1 & H1).
    destruct (IH2 cu1 _ Hwg2 Hin1 Hw1 H1) as (cu2 & Hin2 & Hw2 & Hg2 & H2).
    exists cu2. repeat split; [assumption | assumption | | assumption].
    cbn [c_grp has_group] in *. intros [Hg | [Hg | Hg]]; auto.
  - cbn [m_re] in H. cbn [word_groups] in Hwg.
    destruct (m_re r (mkCursor pv s i g) k) as [y|] eqn:Hr.
    + inversion H; subst y.
      destruct (IH (mkCursor pv s i g) _ Hwg Hcu Hw Hr)
        as (cu' & Hin & Hw' & Hg & Hk).
      exists cu'. repeat split; [assumption | assumption | | assumption].
      cbn [c_grp has_group] in *. intros [Hn | []]. auto.
    + exists (mkCursor pv s i g).
      repeat split; [exact Hcu | exact Hw | | exact H].
      cbn [c_grp]. now intros [? | []].
  - cbn [word_groups] in Hwg. subst r.
    cbn [m_re c_rest c_pos c_grp c_prev] in H.
    destruct s as [|c s']; [discriminate|].
    destruct (is_word c) eqn:Hc; [|discriminate].
    pose proof (drop_next _ _ _ _ (eq_sym Hcu)) as Hs'.
    apply m_star_grp in H; [|now symmetry].
    destruct H as ([pv1 s1 i1 g1] & Hin & _ & Hle & Hall & Hk).
    cbn [c_rest c_pos c_grp c_prev] in *.
    exists (mkCursor pv1 s1 i1 (Some (i, i1))).
    repeat split; [exact Hin | | | | exact Hk];
      unfold word_span; cbn [c_grp].
    + rewrite (slice_step i i1 c s' (eq_sym Hcu)) by lia. discriminate.
    + rewrite (slice_step i i1 c s' (eq_sym Hcu)) by lia.
      cbn [all_chars]. now rewrite Hc, Hall.
    + discriminate.
  - cbn [m_re c_rest c_pos c_grp c_prev] in H.
    destruct (at_boundary pv s); [|discriminate].
    exists (mkCursor pv s i g).
    repeat split; [exact Hcu | exact Hw | | exact H].
    cbn [c_grp]. now intros [? | []].
Qed.

End GroupFacts.

Section NameFacts.
Variable content : string.

Lemma match_here_word_group (r : regex) (cu : cursor) (m : match_obj) :
  word_groups r -> has_group r -> cursor_in content cu ->
  match_here r cu = Some m -> word_group content m.
Proof.
  intros Hwg Hg Hcu H. unfold match_here in H.
  apply (m_re_groups content) in H; [| exact Hwg | exact Hcu | exact I].
  destruct H as (cu' & _ & Hw & Hsome & Hk).
  inversion Hk; subst m. unfold word_group, word_span in *. cbn [m_span1].
  destruct (c_grp cu') as [[a b]|]; [|exfalso; apply Hsome; auto].
  exists a, b. now split.
Qed.

Lemma scan_word_group (r : regex) pv s i skip (m : match_obj) :
  word_groups r -> has_group r -> s = drop i content ->
  In m (scan r pv s i skip) -> word_group content m.
Proof.
  intros Hwg Hg. revert pv i skip.
  induction s as [|c s' IH]; intros pv i skip Hs H;
    simpl in H; [contradiction|].
  assert (Hs' : s' = drop (S i) content).
  { symmetry. eapply drop_next. symmetry. exact Hs. }
  destruct skip as [|skip]; [|eauto].
  destruct (match_here _ _) as [m0|] eqn:Hm; [|eauto].
  destruct H as [<- | H]; [|eauto].
  eapply match_here_word_group; [exact Hwg | exact Hg | | exact Hm].
  exact Hs.
Qed.

Lemma group1_word (m : match_obj) :
  word_group content m ->
  group1 content m <> EmptyString /\
  all_chars is_word (group1 content m) = true.
Proof.
  intros (a & b & Hm & Hne & Hall). unfold group1. now rewrite Hm.
Qed.

End NameFacts.

(** X25: the name of every function, struct or interface entity is a word:
    it is not empty and has letters, digits and underscores only. *)
Theorem declaration_name_is_word (root : string) (files : list GoFile)
    (e : CodeEntity) :
  In e (parse_all root files) -> is_declaration (entity_type e) ->
  name e <> EmptyString /\ all_chars is_word (name e) = true.
Proof.
  intros H Hdecl. apply parse_all_In in H as (gf & _ & _ & H).
  unfold _parse_file in H. destruct (source gf) as [text|]; [|contradiction].
  destruct H as [<- | H].
  { apply declaration_not_file in Hdecl. now contradiction Hdecl. }
  apply in_app_iff in H as [H | H].
  - unfold _extract_functions in H. apply in_flat_map in H as (m & Hm & H).
    destruct (_extract_code_block text (m_start m) (m_end m)) as [sg body].
    destruct (startswith "Test" (group1 text m)); [contradiction|].
    destruct H as [<- | []]. fields. apply group1_word.
    apply (scan_word_group text func_pattern None text 0 0);
      [cbn; tauto | cbn; tauto | reflexivity | exact Hm].
  - unfold _extract_types in H. apply in_flat_map in H as ([pat ty] & Hp & H).
    apply in_map_iff in H as (m & <- & Hm).
    destruct (_extract_code_block text (m_start m) (m_end m)) as [sg body].
    fields. apply group1_word.
    destruct Hp as [Hp | [Hp | []]]; inversion Hp; subst pat ty.
    + apply (scan_word_group text struct_pattern None text 0 0);
        [cbn; tauto | cbn; tauto | reflexivity | exact Hm].
    + apply (scan_word_group text interface_pattern None text 0 0);
        [cbn; tauto | cbn; tauto | reflexivity | exact Hm].
Qed.

Lemma declaration_name_is_word_witness :
  In adder_struct_row (parse_all "/repo" adder_files) /\
  is_declaration (entity_type adder_struct_row) /\
  name adder_struct_row <> EmptyString /\
  all_chars is_word (name adder_struct_row) = true.
Proof.
  assert (H : In adder_struct_row (parse_all "/repo" adder_files))
    by (vm_compute; right; now left).
  assert (Hd : is_declaration (entity_type adder_struct_row))
    by (right; now left).
  split; [exact H|]. split; [exact Hd|].
  exact (declaration_name_is_word "/repo" adder_files _ H Hd).
Defined.

(** ** Indexing, then searching *)

Section DistinctFacts.

Lemma Subseq_NoDup {A} (l1 l2 : list A) :
  Subseq l1 l2 -> NoDup l2 -> NoDup l1.
Proof.
  induction 1 as [|x l1 l2 Hs IH|x l1 l2 Hs IH]; intros H; auto;
    inversion H; subst; auto.
  constructor; [|auto]. intros Hin. eauto using Subseq_In.
Qed.

Lemma insert_desc_keys (x : string * nat) (l : list (string * nat))
    (k : string) :
  In k (map fst (insert_desc x l)) <-> k = fst x \/ In k (map fst l).
Proof.
  rewrite !in_map_iff. split.
  - intros (y & <- & Hy). apply insert_desc_In in Hy as [-> | Hy];
      [now left | right; now exists y].
  - intros [-> | (y & <- & Hy)].
    + exists x. split; [reflexivity|]. apply insert_desc_In. now left.
    + exists y. split; [reflexivity|]. apply insert_desc_In. now right.
Qed.

Lemma insert_desc_NoDup (x : string * nat) (l : list (string * nat)) :
  ~ In (fst x) (map fst l) -> NoDup (map fst l) ->
  NoDup (map fst (insert_desc x l)).
Proof.
  induction l as [|y l IH]; intros Hx Hl; cbn [insert_desc].
  - repeat constructor. intros [].
  - destruct (snd y <=? snd x); [now constructor|].
    cbn [map] in *. inversion Hl; subst. constructor.
    + rewrite insert_desc_keys. intros [E | Hin]; [|contradiction].
      apply Hx. now left.
    + apply IH; [|assumption]. intros Hin. apply Hx. now right.
Qed.

Lemma sort_desc_NoDup (l : list (string * nat)) :
  NoDup (map fst l) -> NoDup (map fst (sort_desc l)).
Proof.
  induction l as [|x l IH]; intros H; [constructor|].
  cbn [sort_desc fold_right]. fold (sort_desc l).
  inversion H as [|? ? Hnin Hnd]; subst.
  apply insert_desc_NoDup; [|auto].
  intros Hin. apply in_map_iff in Hin as (y & Hy & Hin).
  apply (proj1 (sort_desc_In _ _)) in Hin. apply Hnin. rewrite <- Hy.
  apply in_map_iff. now exists y.
Qed.

End DistinctFacts.

(** X26: when the keys of [search_index] are unique, a search returns no
    entity twice. *)
Theorem search_results_distinct (st : Store) (query : string) (limit : Z)
    (entity_types : option (list string)) :
  NoDup (map fst (search_index st)) ->
  NoDup (map result_id (search st query limit entity_types)).
Proof.
  intros H. rewrite search_ids.
  eapply Subseq_NoDup;
    [apply Subseq_map, found_pairs_Subseq|].
  apply sort_desc_NoDup.
  eapply Subseq_NoDup; [apply matching_ids_scan_order|].
  now apply key_scan_NoDup.
Qed.

Lemma search_results_distinct_witness :
  NoDup (map fst (search_index adder_store)) /\
  NoDup (map result_id (search adder_store "add" 10 None)).
Proof.
  assert (H : NoDup (map fst (search_index adder_store))).
  { assert (E : map fst (search_index adder_store)
                = ["file:calc/add.go"; "struct:calc/add.go:Add:2"])
      by (vm_compute; reflexivity).
    rewrite E. repeat constructor.
    - intros [E' | []]. discriminate E'.
    - intros []. }
  split; [exact H|].
  exact (search_results_distinct adder_store "add" 10 None H).
Defined.

(** X27: indexing then searching: after a batch is indexed into a store
    whose tables are in step, the last entity of the batch with its
    identifier is returned by a search for any of its keywords that is a
    single token, given a limit of at least the number of indexed rows. *)
Theorem index_then_search (generate : CodeEntity -> option (list double))
    (es1 es2 : list CodeEntity) (e : CodeEntity) (st : Store) (w : string)
    (limit : Z) (entity_types : option (list string)) :
  keys_in_step st ->
  (forall e', In e' es2 -> entity_id e' <> entity_id e) ->
  In w (keyword_words e) ->
  split_ws (lower w) = [lower w] ->
  (Z.of_nat (length (search_index
                      (index_entities generate (es1 ++ e :: es2) st)))
     <= limit)%Z ->
  In (entity_id e)
     (map result_id
        (search (index_entities generate (es1 ++ e :: es2) st) w limit
           entity_types)).
Proof.
  intros Hstep Hlast Hw Htok Hlimit.
  apply search_by_keyword; try assumption.
  - now apply index_in_step.
  - now apply index_lookup_last.
Qed.

Lemma index_then_search_witness :
  keys_in_step empty_store /\
  (forall e', In e' [] -> entity_id e' <> entity_id adder_struct_row) /\
  In "struct" (keyword_words adder_struct_row) /\
  split_ws (lower "struct") = [lower "struct"] /\
  (Z.of_nat (length (search_index
                      (index_entities (fun _ => None)
                         ([] ++ adder_struct_row :: []) empty_store)))
     <= 3)%Z /\
  In (entity_id adder_struct_row)
     (map result_id
        (search (index_entities (fun _ => None)
                   ([] ++ adder_struct_row :: []) empty_store)
           "struct" 3 None)).
Proof.
  assert (H1 : keys_in_step empty_store) by reflexivity.
  assert (H2 : forall e', In e' [] ->
                 entity_id e' <> entity_id adder_struct_row)
    by (intros e' []).
  assert (H3 : In "struct" (keyword_words adder_struct_row))
    by (vm_compute; tauto).
  assert (H4 : split_ws (lower "struct") = [lower "struct"])
    by (vm_compute; reflexivity).
  assert (H5 : (Z.of_nat (length (search_index
                      (index_entities (fun _ => None)
                         ([] ++ adder_struct_row :: []) empty_store)))
                 <= 3)%Z)
    by (vm_compute; discriminate).
  split; [exact H1|]. split; [exact H2|]. split; [exact H3|].
  split; [exact H4|]. split; [exact H5|].
  exact (index_then_search (fun _ => None) [] [] adder_struct_row
           empty_store "struct" 3 None H1 H2 H3 H4 H5).
Defined.

(** ** Case mappings above the ASCII range *)

(** The capital E with acute accent (201) is lowered to the small one
    (233); the sharp s (223) and the multiplication sign (215) are kept. *)
Example lower_latin1_example :
  lower (String "201" "COLE") = String "233" "cole" /\
  lower strasse = strasse /\
  lower (String "215" "") = String "215" "" /\
  upper (String "233" "cole") = Some (String "201" "COLE") /\
  upper (String "181" "") = None.
Proof. repeat split; vm_compute; reflexivity. Qed.
